(** * xt_condition: the condition-variable registry of the "condition" match

    A shallow embedding of the registry code of xt_condition.c (the
    per-namespace list of reference-counted condition variables, their
    procfs nodes, the match function and the checkentry / destroy hooks),
    followed by the properties the specification states about it.

    Conventions of the embedding
    - a pointer is an address ([positive]); a nullable pointer is an
      [option]; kmalloc'ed objects live in a finite map from addresses;
    - [unsigned int] is a [Z] in [0, 2^32) and every arithmetic step on it
      is wrapped explicitly;
    - a function that dereferences a dangling pointer has no result
      ([None]); otherwise it returns its C return value together with the
      state it leaves behind;
    - what the kernel decides (does kmalloc succeed, does procfs create the
      node) is an explicit argument of the function that asks;
    - every body between [mutex_lock] and [mutex_unlock] is one step: the
      model is sequential and the mutex itself is not represented. *)

From Stdlib Require Import ZArith Lia List Ascii String.
From stdpp Require Import base option list gmap strings fin_maps.

Local Open Scope Z_scope.

(** ** C strings *)

Module CString.

(** A [string] stands for the bytes of a char array; as in C, the text it
    holds ends before the first NUL byte (or at the end of the array). *)
Definition NUL : ascii := Ascii.zero.

Definition is_nul (c : ascii) : bool := Ascii.eqb c NUL.

(** The text of a buffer: its bytes up to the first NUL. *)
Fixpoint c_str (s : string) : string :=
  match s with
  | EmptyString => EmptyString
  | String c s' => if is_nul c then EmptyString else String c (c_str s')
  end.

Fixpoint strlen (s : string) : nat :=
  match s with
  | EmptyString => O
  | String c s' => if is_nul c then O else S (strlen s')
  end.

(** [strnlen(s, n)]: the length of the text, or [n] when no terminator is
    met within the first [n] bytes. *)
Fixpoint strnlen (s : string) (n : nat) {struct n} : nat :=
  match n with
  | O => O
  | S n' =>
      match s with
      | EmptyString => O
      | String c s' => if is_nul c then O else S (strnlen s' n')
      end
  end.

Definition uchar (c : ascii) : Z := Z.of_nat (nat_of_ascii c).

(** [strcmp]: the difference of the first two bytes that differ, compared
    as unsigned char; the end of a buffer reads as its terminator. *)
Fixpoint strcmp (a b : string) : Z :=
  match a, b with
  | EmptyString, EmptyString => 0
  | EmptyString, String d _ => 0 - uchar d
  | String c _, EmptyString => uchar c
  | String c a', String d b' =>
      if Ascii.eqb c d
      then (if is_nul c then 0 else strcmp a' b')
      else uchar c - uchar d
  end.

(** [strchr(s, ch) != NULL] for a non-NUL [ch]. *)
Fixpoint strchr (s : string) (ch : ascii) : bool :=
  match s with
  | EmptyString => false
  | String c s' =>
      if is_nul c then false
      else if Ascii.eqb c ch then true else strchr s' ch
  end.

(** [memcpy(dst, src, n)] into a char array of [n] bytes: the first [n]
    bytes of the source. *)
Fixpoint memcpy (src : string) (n : nat) {struct n} : string :=
  match n with
  | O => EmptyString
  | S n' =>
      match src with
      | EmptyString => EmptyString
      | String c s' => String c (memcpy s' n')
      end
  end.

End CString.

Import CString.

#[global] Arguments memcpy : simpl never.

(** ** Machine integers and constants *)

Definition UINT_MAX : Z := 4294967295.

(** Reduction of a value to [unsigned int]. *)
Definition wrap_uint (z : Z) : Z := z mod (UINT_MAX + 1).

Definition SSIZE_MAX : Z := 9223372036854775807.

(** Conversion of a [size_t] to the [ssize_t] a write handler returns
    (both 64 bits wide). *)
Definition ssize_of_size (n : Z) : Z :=
  let m := n mod (2 * (SSIZE_MAX + 1)) in
  if m <=? SSIZE_MAX then m else m - 2 * (SSIZE_MAX + 1).

Definition EACCES : Z := 13.
Definition EFAULT : Z := 14.
Definition EINVAL : Z := 22.
Definition ENOMEM : Z := 12.

Definition S_IRUGO : Z := 292.  (* 0444 *)
Definition S_IWUSR : Z := 128.  (* 0200 *)

(** ** Data *)

Definition addr : Type := positive.

(** [struct condition_variable].  The [list] member is represented by the
    position of the object's address in [conditions_list]; [status_proc]
    is written once and never read again (the node is found by name when it
    is removed), so it is not kept. *)
Record condition_variable : Type := mk_var {
  refcount : Z;
  enabled : bool;
  name : string
}.

(** Modelled from the spec: [struct xt_condition_mtinfo] is declared in
    xt_condition.h, which is not among the sources.  The spec's match
    configuration is a bounded name, a boolean invert flag and the resolved
    reference to the condition variable. *)
Record xt_condition_mtinfo : Type := mk_info {
  info_name : string;
  invert : bool;
  condvar : option addr
}.

(** Modelled from the spec: [sizeof(info->name)], from the same missing
    header; the spec bounds the name field by 31 bytes. *)
Definition sizeof_name : nat := 31.

(** A procfs node, as far as this module sets it up. *)
Record proc_dir_entry : Type := mk_pde {
  pde_mode : Z;
  pde_uid : Z;
  pde_gid : Z;
  pde_data : addr
}.

(** The module parameters. *)
Record module_params : Type := mk_params {
  condition_list_perms : Z;
  condition_uid_perms : Z;
  condition_gid_perms : Z
}.

(** Defaults, these can be overridden on the module command-line. *)
Definition default_params : module_params :=
  {| condition_list_perms := Z.lor S_IRUGO S_IWUSR;
     condition_uid_perms := 0;
     condition_gid_perms := 0 |}.

(** [struct condition_net] of one network namespace together with the
    kernel objects it refers to: the kmalloc'ed variables and the procfs
    nodes, keyed by the parent directory they were created under (as the
    pointer the code passed) and their name. *)
Record state : Type := mk_state {
  conditions_list : list addr;
  proc_net_condition : option addr;
  kmem : gmap addr condition_variable;
  procfs : gmap (option addr * string) proc_dir_entry
}.

(** What the kernel answers during one call of [condition_mt_check]. *)
Record kernel_env : Type := mk_env {
  kmalloc_ret : option addr;     (* the object kmalloc returns, or NULL *)
  proc_create_ok : bool          (* procfs has the memory for a node *)
}.

(** ** Kernel helpers the module calls *)

Definition ENAMETOOLONG : Z := 36.

(** Modelled from the spec: [xt_check_proc_name] belongs to the x_tables
    core and is not among the sources.  By the spec a name passes when it
    is non-empty, within the length bound, free of path separators and not
    one of the reserved relative names; the bound is that the text and its
    terminator fit the [size] bytes of the field.  The result is 0 for a
    name that passes and a negative errno otherwise. *)
Definition xt_check_proc_name (nm : string) (size : nat) : Z :=
  if (strlen nm =? 0)%nat then - EINVAL
  else if (strnlen nm size =? size)%nat then - ENAMETOOLONG
  else if (strcmp nm "." =? 0) || (strcmp nm ".." =? 0) || strchr nm "/"
       then - EINVAL
       else 0.

(** [proc_create_data(name, mode, parent, fops, data)]: procfs refuses a
    second node of the same name under one parent, and may lack memory;
    a new node belongs to root until [proc_set_user] is called. *)
Definition proc_create_data (nm : string) (mode : Z) (parent : option addr)
    (data : addr) (ok : bool)
    (fs : gmap (option addr * string) proc_dir_entry)
  : option (gmap (option addr * string) proc_dir_entry) :=
  if ok then
    match fs !! (parent, c_str nm) with
    | Some _ => None
    | None =>
        Some (<[(parent, c_str nm) :=
                 {| pde_mode := mode; pde_uid := 0; pde_gid := 0;
                    pde_data := data |}]> fs)
    end
  else None.

(** [proc_set_user(de, uid, gid)], the node given by its parent and name;
    [make_kuid] and [make_kgid] in [init_user_ns] map a number to itself. *)
Definition proc_set_user (key : option addr * string) (uid gid : Z)
    (fs : gmap (option addr * string) proc_dir_entry)
  : gmap (option addr * string) proc_dir_entry :=
  alter (fun e => {| pde_mode := pde_mode e; pde_uid := uid; pde_gid := gid;
                     pde_data := pde_data e |}) key fs.

(** [remove_proc_entry(name, parent)]. *)
Definition remove_proc_entry (nm : string) (parent : addr)
    (fs : gmap (option addr * string) proc_dir_entry)
  : gmap (option addr * string) proc_dir_entry :=
  delete (Some parent, c_str nm) fs.

(** [remove_proc_subtree] on a directory: the directory goes with every
    node created under it. *)
Definition remove_proc_subtree (dir : addr)
    (fs : gmap (option addr * string) proc_dir_entry)
  : gmap (option addr * string) proc_dir_entry :=
  filter (fun kv => fst (fst kv) <> Some dir) fs.

(** [list_add(new, head)] puts the entry first. *)
Definition list_add (p : addr) (l : list addr) : list addr := p :: l.

(** [list_del(entry)] unlinks the entry. *)
Fixpoint list_del (p : addr) (l : list addr) : list addr :=
  match l with
  | [] => []
  | q :: l' => if Pos.eqb p q then l' else q :: list_del p l'
  end.

(** User memory handed to a write: either readable bytes, or an address
    that faults. *)
Inductive user_ptr : Type :=
  | user_fault
  | user_bytes (bs : string).

(** [get_user(c, buffer)]: the first byte, or nothing on a fault. *)
Definition get_user (buffer : user_ptr) : option ascii :=
  match buffer with
  | user_bytes (String c _) => Some c
  | _ => None
  end.

(** ** The control-surface file: condition_proc_show, condition_proc_write *)

Definition newline : string := String (ascii_of_nat 10) EmptyString.

Definition set_enabled (b : bool) (var : condition_variable)
  : condition_variable :=
  {| refcount := refcount var; enabled := b; name := name var |}.

Definition set_refcount (r : Z) (var : condition_variable)
  : condition_variable :=
  {| refcount := r; enabled := enabled var; name := name var |}.

Definition set_kmem (h : gmap addr condition_variable) (st : state) : state :=
  {| conditions_list := conditions_list st;
     proc_net_condition := proc_net_condition st;
     kmem := h;
     procfs := procfs st |}.

(** [condition_proc_show]: the text printed into the seq_file, and the
    return value. *)
Definition condition_proc_show (private : addr) (st : state)
  : option (Z * string) :=
  match kmem st !! private with
  | None => None
  | Some var =>
      Some (0, (if enabled var then String "1" newline
                else String "0" newline))
  end.

(** [condition_proc_write]: [private] is the [pde_data] of the node
    written to. *)
Definition condition_proc_write (private : addr) (buffer : user_ptr)
    (length : Z) (st : state) : option (Z * state) :=
  match kmem st !! private with
  | None => None
  | Some var =>
      if 0 <? length then
        match get_user buffer with
        | None => Some (- EFAULT, st)
        | Some newval =>
            (* Match only on the first character *)
            let var' :=
              if Ascii.eqb newval "0" then set_enabled false var
              else if Ascii.eqb newval "1" then set_enabled true var
              else var in
            Some (ssize_of_size length,
                  set_kmem (<[private := var']> (kmem st)) st)
        end
      else Some (ssize_of_size length, st)
  end.

(** ** The match function *)

Definition condition_mt (info : xt_condition_mtinfo) (st : state)
  : option bool :=
  match condvar info with
  | None => None
  | Some p =>
      match kmem st !! p with
      | None => None
      | Some var => Some (xorb (enabled var) (invert info))
      end
  end.

(** ** checkentry and destroy *)

(** The loop of [condition_mt_check] over [conditions_list]: the first
    variable whose name compares equal, if any. *)
Fixpoint find_condition (h : gmap addr condition_variable) (nm : string)
    (l : list addr) : option (option addr) :=
  match l with
  | [] => Some None
  | p :: l' =>
      match h !! p with
      | None => None
      | Some var =>
          if strcmp nm (name var) =? 0 then Some (Some p)
          else find_condition h nm l'
      end
  end.

Definition set_condvar (p : addr) (info : xt_condition_mtinfo)
  : xt_condition_mtinfo :=
  {| info_name := info_name info; invert := invert info;
     condvar := Some p |}.

Definition condition_mt_check (mp : module_params) (env : kernel_env)
    (info : xt_condition_mtinfo) (st : state)
  : option (Z * xt_condition_mtinfo * state) :=
  (* Forbid certain names *)
  if negb (xt_check_proc_name (info_name info) sizeof_name =? 0)
  then Some (- EINVAL, info, st)
  else
    match find_condition (kmem st) (info_name info) (conditions_list st) with
    | None => None
    | Some (Some p) =>
        match kmem st !! p with
        | None => None
        | Some var =>
            let var' := set_refcount (wrap_uint (refcount var + 1)) var in
            Some (0, set_condvar p info,
                  set_kmem (<[p := var']> (kmem st)) st)
        end
    | Some None =>
        (* At this point, we need to allocate a new condition variable. *)
        match kmalloc_ret env with
        | None => Some (- ENOMEM, info, st)
        | Some p =>
            (* kmalloc does not initialise: the fields not yet written are
               shown as 0 and false; each is written before it is read *)
            let var := {| refcount := 0; enabled := false;
                          name := memcpy (info_name info) sizeof_name |} in
            let h1 := <[p := var]> (kmem st) in
            (* Create the condition variable's proc file entry. *)
            match proc_create_data (info_name info)
                    (condition_list_perms mp) (proc_net_condition st) p
                    (proc_create_ok env) (procfs st) with
            | None =>
                Some (- ENOMEM, info, set_kmem (delete p h1) st)
            | Some fs1 =>
                let fs2 :=
                  proc_set_user
                    (proc_net_condition st, c_str (info_name info))
                    (condition_uid_perms mp) (condition_gid_perms mp) fs1 in
                let var' := set_enabled false (set_refcount 1 var) in
                Some (0, set_condvar p info,
                      {| conditions_list := list_add p (conditions_list st);
                         proc_net_condition := proc_net_condition st;
                         kmem := <[p := var']> h1;
                         procfs := fs2 |})
            end
        end
    end.

Definition condition_mt_destroy (info : xt_condition_mtinfo) (st : state)
  : option state :=
  match condvar info with
  | None => None
  | Some p =>
      match kmem st !! p with
      | None => None
      | Some var =>
          let r := wrap_uint (refcount var - 1) in
          if r =? 0 then
            Some {| conditions_list := list_del p (conditions_list st);
                    proc_net_condition := proc_net_condition st;
                    kmem := delete p (kmem st);
                    procfs :=
                      match proc_net_condition st with
                      | Some dir => remove_proc_entry (name var) dir (procfs st)
                      | None => procfs st
                      end |}
          else
            Some (set_kmem (<[p := set_refcount r var]> (kmem st)) st)
      end
  end.

(** ** Namespace init and exit *)

(** [condition_net_init]: [mkdir] is what [proc_mkdir] returns. *)
Definition condition_net_init (mkdir : option addr) (st : state)
  : Z * state :=
  let st' := {| conditions_list := [];
                proc_net_condition := mkdir;
                kmem := kmem st;
                procfs := procfs st |} in
  match mkdir with
  | None => (- EACCES, st')
  | Some _ => (0, st')
  end.

(** [condition_net_exit]: the directory named [dir_name] under the
    namespace's proc directory is the one [condition_net_init] made. *)
Definition condition_net_exit (st : state) : state :=
  {| conditions_list := conditions_list st;
     proc_net_condition := None;
     kmem := kmem st;
     procfs :=
       match proc_net_condition st with
       | Some dir => remove_proc_subtree dir (procfs st)
       | None => procfs st
       end |}.

(** ** Rules holding handles: the operations of the rule framework *)

(** The state of the namespace before [condition_net_init]: nothing
    allocated, no node. *)
Definition boot_state : state :=
  {| conditions_list := []; proc_net_condition := None;
     kmem := ∅; procfs := ∅ |}.

(** A configuration: the registry, and the handles ([info->condvar]) the
    installed rules hold, one entry per rule. *)
Definition config : Type := (state * list addr)%type.

(** Rule installation calls [condition_mt_check] on a fresh match
    configuration; rule removal calls [condition_mt_destroy] on the
    configuration of an installed rule. *)
Inductive op : Type :=
  | Attach (mp : module_params) (env : kernel_env) (nm : string) (inv : bool)
  | Detach (p : addr).

(** kmalloc never hands out an object that is still allocated. *)
Definition env_fresh (env : kernel_env) (st : state) : Prop :=
  match kmalloc_ret env with
  | Some p => kmem st !! p = None
  | None => True
  end.

#[global] Instance env_fresh_dec (env : kernel_env) (st : state)
  : Decision (env_fresh env st) :=
  match kmalloc_ret env as o
        return Decision (match o with
                         | Some p => kmem st !! p = None
                         | None => True
                         end) with
  | Some p => decide (kmem st !! p = None)
  | None => left I
  end.

(** One operation.  It has no successor when the framework could not have
    issued it (a detach for a handle no rule holds, a kmalloc answer that is
    not fresh) or when the code dereferences a dangling pointer. *)
Definition step (o : op) (c : config) : option config :=
  match o with
  | Attach mp env nm inv =>
      if decide (env_fresh env (fst c)) then
        match condition_mt_check mp env
                {| info_name := nm; invert := inv; condvar := None |}
                (fst c) with
        | Some (ret, info', st') =>
            Some (st',
                  if ret =? 0 then
                    match condvar info' with
                    | Some p => p :: snd c
                    | None => snd c
                    end
                  else snd c)
        | None => None
        end
      else None
  | Detach p =>
      if decide (p ∈ snd c) then
        match condition_mt_destroy
                {| info_name := EmptyString; invert := false;
                   condvar := Some p |} (fst c) with
        | Some st' => Some (st', list_del p (snd c))
        | None => None
        end
      else None
  end.

(** The number of handles referencing the variable at [p]. *)
Definition holders (p : addr) (hs : list addr) : Z :=
  Z.of_nat (count_occ Pos.eq_dec hs p).

(** No variable is referenced by more handles than an [unsigned int]
    counts. *)
Definition within_limit (c : config) : Prop :=
  forall p, holders p (snd c) <= UINT_MAX.

Definition no_limit (c : config) : Prop := True.

(** The configurations reached from a successfully initialised namespace by
    attach and detach operations, every configuration on the way
    satisfying [lim]. *)
Inductive reachable (lim : config -> Prop) : config -> Prop :=
  | reach_init (dir : addr) :
      reachable lim (snd (condition_net_init (Some dir) boot_state), [])
  | reach_step (c c' : config) (o : op) :
      reachable lim c -> step o c = Some c' -> lim c' -> reachable lim c'.

(** Each variable's refcount is the number of handles referencing it, and
    only live variables are referenced. *)
Definition refcounts_match (c : config) : Prop :=
  forall p,
    holders p (snd c) =
    match kmem (fst c) !! p with
    | Some var => refcount var
    | None => 0
    end.

(** The variable at [p] is in the collection and has its node under the
    root directory. *)
Definition registered (p : addr) (st : state) : Prop :=
  p ∈ conditions_list st /\
  exists var e,
    kmem st !! p = Some var /\
    is_Some (proc_net_condition st) /\
    procfs st !! (proc_net_condition st, c_str (name var)) = Some e /\
    pde_data e = p.

(** The variable that was at [p] is gone: out of the collection, freed,
    and the root directory has no node of its name [nm]. *)
Definition removed (p : addr) (nm : string) (st : state) : Prop :=
  (p ∉ conditions_list st) /\
  kmem st !! p = None /\
  procfs st !! (proc_net_condition st, c_str nm) = None.

(** The data-model invariants of an initialised registry. *)
Record registry_ok (st : state) : Prop := mk_registry_ok {
  ok_root : is_Some (proc_net_condition st);
  ok_nodup : NoDup (conditions_list st);
  ok_list : forall p, p ∈ conditions_list st <-> is_Some (kmem st !! p);
  ok_refcount :
    forall p var, kmem st !! p = Some var -> 1 <= refcount var <= UINT_MAX;
  ok_names :
    forall p q vp vq,
      kmem st !! p = Some vp -> kmem st !! q = Some vq ->
      strcmp (name vp) (name vq) = 0 -> p = q;
  ok_nodes :
    forall p var,
      kmem st !! p = Some var ->
      exists e,
        procfs st !! (proc_net_condition st, c_str (name var)) = Some e /\
        pde_data e = p;
  ok_nodes_only :
    forall k e,
      procfs st !! k = Some e ->
      exists var,
        kmem st !! pde_data e = Some var /\
        k = (proc_net_condition st, c_str (name var))
}.

(** A name the sanitizer rejects, in the spec's words. *)
Definition invalid_name (nm : string) : Prop :=
  (c_str nm = EmptyString) \/
  (sizeof_name <= strlen nm)%nat \/
  (strchr nm "/" = true) \/
  (c_str nm = "."%string) \/
  (c_str nm = ".."%string).

(** The four ways [condition_mt_check] ends, as relations between the
    state before and the result. *)
Inductive attach_outcome (mp : module_params) (info : xt_condition_mtinfo)
    (st : state) : Z -> xt_condition_mtinfo -> state -> Prop :=
  | attach_invalid :
      invalid_name (info_name info) ->
      attach_outcome mp info st (- EINVAL) info st
  | attach_shared (p : addr) (var : condition_variable) :
      xt_check_proc_name (info_name info) sizeof_name = 0 ->
      kmem st !! p = Some var ->
      strcmp (info_name info) (name var) = 0 ->
      attach_outcome mp info st 0 (set_condvar p info)
        (set_kmem (<[p := set_refcount (wrap_uint (refcount var + 1)) var]>
                     (kmem st)) st)
  | attach_nomem :
      xt_check_proc_name (info_name info) sizeof_name = 0 ->
      (forall q var,
          kmem st !! q = Some var -> strcmp (info_name info) (name var) <> 0) ->
      attach_outcome mp info st (- ENOMEM) info st
  | attach_created (p : addr) :
      xt_check_proc_name (info_name info) sizeof_name = 0 ->
      (forall q var,
          kmem st !! q = Some var -> strcmp (info_name info) (name var) <> 0) ->
      kmem st !! p = None ->
      attach_outcome mp info st 0 (set_condvar p info)
        {| conditions_list := p :: conditions_list st;
           proc_net_condition := proc_net_condition st;
           kmem := <[p := {| refcount := 1; enabled := false;
                             name := memcpy (info_name info) sizeof_name |}]>
                     (kmem st);
           procfs := <[(proc_net_condition st, c_str (info_name info)) :=
                         {| pde_mode := condition_list_perms mp;
                            pde_uid := condition_uid_perms mp;
                            pde_gid := condition_gid_perms mp;
                            pde_data := p |}]> (procfs st) |}.

(** ** Sample states *)

Module Sample.

(** A namespace right after a successful [condition_net_init]. *)
Definition st_init : state :=
  snd (condition_net_init (Some 7%positive) boot_state).

Definition env_ok (p : addr) : kernel_env :=
  {| kmalloc_ret := Some p; proc_create_ok := true |}.

Definition env_oom : kernel_env :=
  {| kmalloc_ret := None; proc_create_ok := false |}.

Definition info_foo : xt_condition_mtinfo :=
  {| info_name := "foo"; invert := false; condvar := None |}.

Definition var_foo (r : Z) : condition_variable :=
  {| refcount := r; enabled := false; name := "foo" |}.

(** The namespace with the one variable "foo" at address 1, referenced
    [r] times. *)
Definition st_foo (r : Z) : state :=
  {| conditions_list := [1%positive];
     proc_net_condition := Some 7%positive;
     kmem := {[ 1%positive := var_foo r ]};
     procfs := {[ (Some 7%positive, "foo"%string) :=
                    {| pde_mode := 420; pde_uid := 0; pde_gid := 0;
                       pde_data := 1%positive |} ]} |}.

(** [n] rules, each holding the handle of "foo". *)
Definition cfg_foo (n : nat) : config :=
  (st_foo (wrap_uint (Z.of_nat n)), repeat 1%positive n).

(** The same namespace torn down while a rule still refers to "foo". *)
Definition st_torn_down : state := condition_net_exit (st_foo 1).

End Sample.

(** ** Runs of operations *)

(** A sequence of operations, one after the other; no result as soon as
    one of them has none. *)
Fixpoint run (os : list op) (c : config) : option config :=
  match os with
  | [] => Some c
  | o :: os' =>
      match step o c with
      | Some c' => run os' c'
      | None => None
      end
  end.

(** What the list and the allocated variables keep true of each other
    whether or not the root directory exists. *)
Record alloc_ok (st : state) : Prop := mk_alloc_ok {
  al_nodup : NoDup (conditions_list st);
  al_list : forall p, p ∈ conditions_list st <-> is_Some (kmem st !! p);
  al_refcount :
    forall p var, kmem st !! p = Some var -> 1 <= refcount var <= UINT_MAX
}.

(** ** xt_SYSRQ: the remote sysrq target *)

Module SYSRQ.

(** The verdicts the target returns. *)
Inductive verdict : Type := NF_DROP | NF_ACCEPT.

(** The lines the target prints to the kernel log. *)
Inductive log_msg : Type :=
  | msg_no_password                         (* "No password set" *)
  | msg_mismatch                            (* "Failed attempt - password mismatch" *)
  | msg_packet4 (saddr sport dport len : Z) (* the line of sysrq_tg4 *)
  | msg_packet6 (saddr sport dport len : Z) (* the line of sysrq_tg6 *).

(** The static [sysrq_once], the kernel log, and the keys handed to
    [handle_sysrq], oldest first. *)
Record sysrq_state : Type := mk_sysrq {
  sysrq_once : bool;
  klog : list log_msg;
  sysrq_keys : list ascii
}.

(** The byte a pointer into a NUL-terminated array reads, and the pointer
    advanced by one; the end of the array reads as its terminator. *)
Definition first_byte (s : string) : ascii :=
  match s with
  | EmptyString => NUL
  | String c _ => c
  end.

Definition rest (s : string) : string :=
  match s with
  | EmptyString => EmptyString
  | String _ s' => s'
  end.

(** [strncmp(a, b, n)] where [a] points into packet memory, given as the
    bytes up to the end of the buffer: a read past them has no result.
    [b] is a NUL-terminated array. *)
Fixpoint strncmp (a b : string) (n : nat) {struct n} : option Z :=
  match n with
  | O => Some 0
  | S n' =>
      match a with
      | EmptyString => None
      | String c a' =>
          if Ascii.eqb c (first_byte b)
          then (if is_nul c then Some 0 else strncmp a' (rest b) n')
          else Some (uchar c - uchar (first_byte b))
      end
  end.

(** [sysrq_tg(pdata, len)]: [sysrq_password] is the module parameter,
    [data] the memory [pdata] points to, [len] a [uint16_t]. *)
Definition sysrq_tg (sysrq_password : string) (data : string) (len : Z)
    (st : sysrq_state) : option (verdict * sysrq_state) :=
  if is_nul (first_byte sysrq_password) then
    Some (NF_DROP,
          {| sysrq_once := true;
             klog := if sysrq_once st then klog st
                     else klog st ++ [msg_no_password];
             sysrq_keys := sysrq_keys st |})
  else if len =? 0 then Some (NF_DROP, st)
  else
    match data with
    | EmptyString => None
    | String c data1 =>
        match strncmp data1 sysrq_password (Z.to_nat (len - 1)) with
        | None => None
        | Some r =>
            if negb (r =? 0) then
              Some (NF_DROP,
                    {| sysrq_once := sysrq_once st;
                       klog := klog st ++ [msg_mismatch];
                       sysrq_keys := sysrq_keys st |})
            else
              Some (NF_ACCEPT,
                    {| sysrq_once := sysrq_once st;
                       klog := klog st;
                       sysrq_keys := sysrq_keys st ++ [c] |})
        end
    end.

(** A pointer advanced by [n] bytes. *)
Fixpoint advance (n : nat) (mem : string) : string :=
  match n with
  | O => mem
  | S n' => advance n' (rest mem)
  end.

(** A 16-bit field in network byte order at offset [off], as [ntohs]
    returns it. *)
Definition be16 (mem : string) (off : nat) : option Z :=
  match String.get off mem, String.get (S off) mem with
  | Some hi, Some lo => Some (uchar hi * 256 + uchar lo)
  | _, _ => None
  end.

Definition sizeof_udphdr : nat := 8.

(** The fields of [struct udphdr]: source, dest, len, check. *)
Definition udph_source (udp : string) : option Z := be16 udp 0.
Definition udph_dest (udp : string) : option Z := be16 udp 2.
Definition udph_len (udp : string) : option Z := be16 udp 4.

(** [len = ntohs(udph->len) - sizeof(struct udphdr)], stored in a
    [uint16_t]. *)
Definition payload_len (l : Z) : Z := (l - Z.of_nat sizeof_udphdr) mod 65536.

(** [sysrq_tg4]: [linear] says that [skb_linearize] succeeded, [saddr] is
    the source address of the IP header, [udp] the memory from the UDP
    header to the end of the buffer. *)
Definition sysrq_tg4 (sysrq_password : string) (linear : bool) (saddr : Z)
    (udp : string) (st : sysrq_state) : option (verdict * sysrq_state) :=
  if negb linear then Some (NF_DROP, st)
  else
    match udph_len udp, udph_source udp, udph_dest udp with
    | Some l, Some sport, Some dport =>
        let len := payload_len l in
        let st1 := {| sysrq_once := sysrq_once st;
                      klog := klog st ++ [msg_packet4 saddr sport dport len];
                      sysrq_keys := sysrq_keys st |} in
        (* the byte pointer udph advanced by sizeof(struct udphdr) *)
        sysrq_tg sysrq_password (advance sizeof_udphdr udp) len st1
    | _, _, _ => None
    end.

(** [sysrq_tg6]: as [sysrq_tg4], but the data pointer is
    [udph + sizeof(struct udphdr)] with [udph] a [struct udphdr *]: 8
    elements of 8 bytes. *)
Definition sysrq_tg6 (sysrq_password : string) (linear : bool) (saddr : Z)
    (udp : string) (st : sysrq_state) : option (verdict * sysrq_state) :=
  if negb linear then Some (NF_DROP, st)
  else
    match udph_len udp, udph_source udp, udph_dest udp with
    | Some l, Some sport, Some dport =>
        let len := payload_len l in
        let st1 := {| sysrq_once := sysrq_once st;
                      klog := klog st ++ [msg_packet6 saddr sport dport len];
                      sysrq_keys := sysrq_keys st |} in
        sysrq_tg sysrq_password
          (advance (sizeof_udphdr * sizeof_udphdr) udp) len st1
    | _, _, _ => None
    end.

(** Constants of the kernel headers. *)
Definition NFPROTO_IPV4 : Z := 2.
Definition NFPROTO_IPV6 : Z := 10.
Definition IPPROTO_UDP : Z := 17.
Definition IPPROTO_UDPLITE : Z := 136.
Definition XT_INV_PROTO : Z := 64.  (* 0x40 *)

(** [sysrq_tg_check]: [family] is [par->target->family]; [proto] and
    [invflags] are those of the entry, an [ipt_entry] or an [ip6t_entry]
    according to the family. *)
Definition sysrq_tg_check (family proto invflags : Z) : bool :=
  if family =? NFPROTO_IPV4 then
    if (negb (proto =? IPPROTO_UDP) && negb (proto =? IPPROTO_UDPLITE))
       || negb (Z.land invflags XT_INV_PROTO =? 0)
    then false else true
  else if family =? NFPROTO_IPV6 then
    if (negb (proto =? IPPROTO_UDP) && negb (proto =? IPPROTO_UDPLITE))
       || negb (Z.land invflags XT_INV_PROTO =? 0)
    then false else true
  else true.

(** The target applied to packets one after the other: the verdicts, and
    the state in the end. *)
Fixpoint sysrq_tg_seq (sysrq_password : string) (pkts : list (string * Z))
    (st : sysrq_state) : option (list verdict * sysrq_state) :=
  match pkts with
  | [] => Some ([], st)
  | (data, len) :: pkts' =>
      match sysrq_tg sysrq_password data len st with
      | None => None
      | Some (v, st1) =>
          match sysrq_tg_seq sysrq_password pkts' st1 with
          | None => None
          | Some (vs, st2) => Some (v :: vs, st2)
          end
      end
  end.

(** Sample memories: the eight header bytes given as numbers, then the
    payload. *)
Definition udp_bytes (header : list nat) (payload : string) : string :=
  fold_right (fun n s => String (ascii_of_nat n) s) payload header.

(** Ports 1234 and 9, length field 15, the payload "bsecret". *)
Definition sample_datagram : string :=
  udp_bytes [4; 210; 0; 9; 0; 15; 0; 0]%nat "bsecret".

(** The same with a length field of 0 and a terminator after the text. *)
Definition sample_short_length : string :=
  udp_bytes [4; 210; 0; 9; 0; 0; 0; 0]%nat
    (String.append "bsecret" (String NUL "")).

Definition sample_state : sysrq_state :=
  {| sysrq_once := false; klog := []; sysrq_keys := [] |}.

(** The state after an accepted packet with key [c], and after a packet
    rejected for its password. *)
Definition accepted (c : ascii) (st : sysrq_state) : sysrq_state :=
  {| sysrq_once := sysrq_once st; klog := klog st;
     sysrq_keys := sysrq_keys st ++ [c] |}.

Definition rejected (st : sysrq_state) : sysrq_state :=
  {| sysrq_once := sysrq_once st; klog := klog st ++ [msg_mismatch];
     sysrq_keys := sysrq_keys st |}.

End SYSRQ.

(** * Properties *)

(** ** C strings *)

Section CStringFacts.

Lemma uchar_inj (c d : ascii) : uchar c = uchar d -> c = d.
Proof.
  unfold uchar. intros H. apply Nat2Z.inj in H.
  rewrite <- (ascii_nat_embedding c), <- (ascii_nat_embedding d).
  now rewrite H.
Qed.

Lemma uchar_nul (c : ascii) : uchar c = 0 -> is_nul c = true.
Proof.
  intros H. unfold is_nul. apply Ascii.eqb_eq. apply uchar_inj.
  rewrite H. reflexivity.
Qed.

Lemma is_nul_uchar (c : ascii) : is_nul c = false -> uchar c <> 0.
Proof.
  intros H E. apply uchar_nul in E. congruence.
Qed.

(** [strcmp] answers 0 exactly on buffers that hold the same text. *)
Lemma strcmp_eq_0 (a b : string) : strcmp a b = 0 <-> c_str a = c_str b.
Proof.
  revert b. induction a as [|c a IH]; intros [|d b]; simpl.
  - tauto.
  - destruct (is_nul d) eqn:E.
    + split; [reflexivity|]. intros _.
      apply Ascii.eqb_eq in E. subst d. reflexivity.
    + split; [|discriminate]. intros H.
      apply is_nul_uchar in E. lia.
  - destruct (is_nul c) eqn:E.
    + split; [reflexivity|]. intros _.
      apply Ascii.eqb_eq in E. subst c. reflexivity.
    + split; [|discriminate]. intros H. now apply is_nul_uchar in E.
  - destruct (Ascii.eqb c d) eqn:Ecd.
    + apply Ascii.eqb_eq in Ecd. subst d.
      destruct (is_nul c); [tauto|].
      rewrite IH. split; [congruence|]. now intros [= ->].
    + apply Ascii.eqb_neq in Ecd. split.
      * intros H. exfalso. apply Ecd, uchar_inj. lia.
      * intros H. exfalso.
        destruct (is_nul c) eqn:Ec, (is_nul d) eqn:Ed;
          try discriminate.
        -- apply Ascii.eqb_eq in Ec, Ed. congruence.
        -- injection H as -> _. congruence.
Qed.

Lemma strlen_c_str (s : string) : strlen s = String.length (c_str s).
Proof.
  induction s as [|c s IH]; simpl; [reflexivity|].
  destruct (is_nul c); simpl; congruence.
Qed.

Lemma strlen_0 (s : string) : strlen s = O <-> c_str s = EmptyString.
Proof.
  destruct s as [|c s]; simpl; [tauto|].
  destruct (is_nul c); split; (reflexivity || discriminate).
Qed.

(** [strnlen] is [strlen] capped. *)
Lemma strnlen_min (s : string) (n : nat) : strnlen s n = Nat.min (strlen s) n.
Proof.
  revert s. induction n as [|n IH]; intros s.
  - cbn [strnlen]. symmetry. apply Nat.min_0_r.
  - destruct s as [|c s]; cbn [strnlen strlen]; [reflexivity|].
    destruct (is_nul c); [reflexivity|]. rewrite IH.
    symmetry. apply Nat.succ_min_distr.
Qed.

(** Copying a field that holds a terminated text keeps the text. *)
Lemma c_str_memcpy (s : string) (n : nat) :
  (strlen s < n)%nat -> c_str (memcpy s n) = c_str s.
Proof.
  revert s. induction n as [|n IH]; intros s H; [lia|].
  destruct s as [|c s]; [reflexivity|].
  change (memcpy (String c s) (S n)) with (String c (memcpy s n)).
  cbn [c_str strlen] in *.
  destruct (is_nul c); [reflexivity|]. rewrite IH; [reflexivity|lia].
Qed.

(** What the sanitizer accepts. *)
Lemma xt_check_proc_name_ok (nm : string) (size : nat) :
  xt_check_proc_name nm size = 0 <->
  c_str nm <> EmptyString /\ (strlen nm < size)%nat /\
  strchr nm "/" = false /\ c_str nm <> "."%string /\ c_str nm <> ".."%string.
Proof.
  unfold xt_check_proc_name, EINVAL, ENAMETOOLONG. rewrite strnlen_min.
  destruct (Nat.eqb_spec (strlen nm) 0) as [E0|E0].
  { split; [discriminate|]. intros [H _]. now apply strlen_0 in E0. }
  assert (c_str nm <> EmptyString) by (now rewrite <- strlen_0).
  destruct (Nat.eqb_spec (Nat.min (strlen nm) size) size) as [E1|E1].
  { split; [discriminate|]. intros (_ & Hl & _). lia. }
  assert (strlen nm < size)%nat by lia.
  destruct (Z.eqb_spec (strcmp nm ".") 0) as [E2|E2]; simpl.
  { split; [discriminate|]. intros (_ & _ & _ & Hd & _).
    now apply strcmp_eq_0 in E2. }
  destruct (Z.eqb_spec (strcmp nm "..") 0) as [E3|E3]; simpl.
  { split; [discriminate|]. intros (_ & _ & _ & _ & Hd).
    now apply strcmp_eq_0 in E3. }
  rewrite strcmp_eq_0 in E2, E3.
  destruct (strchr nm "/").
  { split; [discriminate|]. intros (_ & _ & ? & _). discriminate. }
  tauto.
Qed.

(** The sanitizer rejects exactly the names the spec lists. *)
Lemma xt_check_proc_name_invalid (nm : string) :
  xt_check_proc_name nm sizeof_name <> 0 <-> invalid_name nm.
Proof.
  rewrite xt_check_proc_name_ok. unfold invalid_name.
  destruct (string_dec (c_str nm) EmptyString);
    destruct (le_lt_dec sizeof_name (strlen nm));
    destruct (strchr nm "/");
    destruct (string_dec (c_str nm) ".");
    destruct (string_dec (c_str nm) "..");
    split; intros; try tauto; try lia;
    try (exfalso; intuition (try lia; try congruence; try discriminate)).
Qed.

End CStringFacts.

(** ** Records and updates *)

Lemma set_kmem_id (st : state) : set_kmem (kmem st) st = st.
Proof. now destruct st. Qed.

Lemma set_kmem_insert_id (st : state) (p : addr) (var : condition_variable) :
  kmem st !! p = Some var -> set_kmem (<[p := var]> (kmem st)) st = st.
Proof. intros H. rewrite insert_id by exact H. apply set_kmem_id. Qed.


(** ** The control-surface file and the match function *)


(** C7.  For a handle to a live variable the match function answers
    [enabled] xor [invert]; after a write of "1" it answers true without
    invert and false with it, after a write of "0" the other way round; a
    read of the node shows "1\n" when enabled and "0\n" when not. *)
Theorem condition_mt_xor
    (info : xt_condition_mtinfo) (p : addr) (var : condition_variable)
    (st : state) :
  condvar info = Some p ->
  kmem st !! p = Some var ->
  condition_mt info st = Some (xorb (enabled var) (invert info)) /\
  (exists st1,
      condition_proc_write p (user_bytes "1") 1 st = Some (1, st1) /\
      condition_mt {| info_name := info_name info; invert := false;
                      condvar := Some p |} st1 = Some true /\
      condition_mt {| info_name := info_name info; invert := true;
                      condvar := Some p |} st1 = Some false) /\
  (exists st0,
      condition_proc_write p (user_bytes "0") 1 st = Some (1, st0) /\
      condition_mt {| info_name := info_name info; invert := false;
                      condvar := Some p |} st0 = Some false /\
      condition_mt {| info_name := info_name info; invert := true;
                      condvar := Some p |} st0 = Some true) /\
  condition_proc_show p st =
  Some (0, if enabled var then String "1" newline else String "0" newline).
Proof.
  intros Hc Hp. repeat split.
  - unfold condition_mt. now rewrite Hc, Hp.
  - eexists. split.
    + unfold condition_proc_write. rewrite Hp. reflexivity.
    + unfold condition_mt. cbn. rewrite lookup_insert_eq. now split.
  - eexists. split.
    + unfold condition_proc_write. rewrite Hp. reflexivity.
    + unfold condition_mt. cbn. rewrite lookup_insert_eq. now split.
  - unfold condition_proc_show. now rewrite Hp.
Qed.

(** C8.  A name the sanitizer rejects (empty, too long for the field,
    with a path separator, "." or "..") makes checkentry fail at once with
    -EINVAL; the registry, the kernel objects and the match configuration
    are what they were. *)
Theorem condition_mt_check_invalid_name
    (mp : module_params) (env : kernel_env) (info : xt_condition_mtinfo)
    (st : state) :
  invalid_name (info_name info) ->
  condition_mt_check mp env info st = Some (- EINVAL, info, st).
Proof.
  intros H. apply xt_check_proc_name_invalid in H.
  unfold condition_mt_check.
  destruct (Z.eqb_spec (xt_check_proc_name (info_name info) sizeof_name) 0);
    [contradiction|reflexivity].
Qed.

(** ** The search loop *)

Lemma find_condition_found (h : gmap addr condition_variable) (nm : string)
    (l : list addr) (p : addr) :
  find_condition h nm l = Some (Some p) ->
  p ∈ l /\ exists var, h !! p = Some var /\ strcmp nm (name var) = 0.
Proof.
  induction l as [|q l IH]; simpl; [discriminate|].
  destruct (h !! q) as [vq|] eqn:Hq; [|discriminate].
  destruct (Z.eqb_spec (strcmp nm (name vq)) 0) as [E|E].
  - intros [= <-]. split; [left|]. eauto.
  - intros H. destruct (IH H) as [Hin Hv]. split; [now right|exact Hv].
Qed.

Lemma find_condition_absent (h : gmap addr condition_variable) (nm : string)
    (l : list addr) :
  find_condition h nm l = Some None ->
  forall q, q ∈ l -> exists var, h !! q = Some var /\ strcmp nm (name var) <> 0.
Proof.
  induction l as [|q l IH]; simpl; intros H r Hr.
  - inversion Hr.
  - destruct (h !! q) as [vq|] eqn:Hq; [|discriminate].
    destruct (Z.eqb_spec (strcmp nm (name vq)) 0) as [E|E]; [discriminate|].
    apply elem_of_cons in Hr as [->|Hr]; [eauto|]. now apply IH.
Qed.

(** The loop never runs into a dangling pointer when every entry of the
    list is allocated. *)
Lemma find_condition_total (h : gmap addr condition_variable) (nm : string)
    (l : list addr) :
  (forall q, q ∈ l -> is_Some (h !! q)) ->
  exists r, find_condition h nm l = Some r.
Proof.
  induction l as [|q l IH]; simpl; intros H; [eauto|].
  destruct (H q) as [vq Hq]; [left|]. rewrite Hq.
  destruct (strcmp nm (name vq) =? 0); [eauto|].
  apply IH. intros r Hr. apply H. now right.
Qed.

Lemma find_condition_none_intro (h : gmap addr condition_variable)
    (nm : string) (l : list addr) :
  (forall q, q ∈ l -> is_Some (h !! q)) ->
  (forall q var, q ∈ l -> h !! q = Some var -> strcmp nm (name var) <> 0) ->
  find_condition h nm l = Some None.
Proof.
  intros Hall Hne. destruct (find_condition_total h nm l Hall) as [[p|] Hr];
    [|exact Hr].
  destruct (find_condition_found _ _ _ _ Hr) as (Hin & var & Hv & E).
  now destruct (Hne p var Hin Hv).
Qed.

Lemma registry_ok_list_alloc (st : state) :
  registry_ok st -> forall q, q ∈ conditions_list st -> is_Some (kmem st !! q).
Proof. intros Hok q. apply (ok_list st Hok). Qed.


(** ** The three ways through checkentry, for a name that passes *)

Section CheckPaths.

Variables (mp : module_params) (env : kernel_env)
          (info : xt_condition_mtinfo) (st : state).
Hypothesis name_ok : xt_check_proc_name (info_name info) sizeof_name = 0.

Lemma check_path_found (p : addr) (var : condition_variable) :
  find_condition (kmem st) (info_name info) (conditions_list st)
    = Some (Some p) ->
  kmem st !! p = Some var ->
  condition_mt_check mp env info st =
  Some (0, set_condvar p info,
        set_kmem (<[p := set_refcount (wrap_uint (refcount var + 1)) var]>
                    (kmem st)) st).
Proof.
  intros Hf Hp. unfold condition_mt_check. rewrite name_ok, Hf, Hp.
  reflexivity.
Qed.

Lemma check_path_kmalloc_null :
  find_condition (kmem st) (info_name info) (conditions_list st)
    = Some None ->
  kmalloc_ret env = None ->
  condition_mt_check mp env info st = Some (- ENOMEM, info, st).
Proof.
  intros Hf Hk. unfold condition_mt_check. rewrite name_ok, Hf, Hk.
  reflexivity.
Qed.

Lemma check_path_proc_null (p : addr) :
  find_condition (kmem st) (info_name info) (conditions_list st)
    = Some None ->
  kmalloc_ret env = Some p -> kmem st !! p = None ->
  proc_create_data (info_name info) (condition_list_perms mp)
    (proc_net_condition st) p (proc_create_ok env) (procfs st) = None ->
  condition_mt_check mp env info st = Some (- ENOMEM, info, st).
Proof.
  intros Hf Hk Hfresh Hc. unfold condition_mt_check.
  rewrite name_ok, Hf, Hk, Hc. cbn [negb Z.eqb].
  rewrite delete_insert_id by exact Hfresh. now rewrite set_kmem_id.
Qed.

Lemma check_path_created (p : addr) :
  find_condition (kmem st) (info_name info) (conditions_list st)
    = Some None ->
  kmalloc_ret env = Some p ->
  proc_create_ok env = true ->
  procfs st !! (proc_net_condition st, c_str (info_name info)) = None ->
  condition_mt_check mp env info st =
  Some (0, set_condvar p info,
        {| conditions_list := p :: conditions_list st;
           proc_net_condition := proc_net_condition st;
           kmem := <[p := {| refcount := 1; enabled := false;
                             name := memcpy (info_name info) sizeof_name |}]>
                     (kmem st);
           procfs := <[(proc_net_condition st, c_str (info_name info)) :=
                         {| pde_mode := condition_list_perms mp;
                            pde_uid := condition_uid_perms mp;
                            pde_gid := condition_gid_perms mp;
                            pde_data := p |}]> (procfs st) |}).
Proof.
  intros Hf Hk Hok Hnode. unfold condition_mt_check, proc_create_data.
  rewrite name_ok, Hf, Hk, Hok, Hnode. cbn [negb Z.eqb].
  unfold proc_set_user, list_add. rewrite alter_insert_eq, insert_insert_eq.
  reflexivity.
Qed.

End CheckPaths.

(** ** Attach *)

Lemma registry_ok_no_node (st : state) (nm : string) :
  registry_ok st ->
  (forall q var, kmem st !! q = Some var -> strcmp nm (name var) <> 0) ->
  procfs st !! (proc_net_condition st, c_str nm) = None.
Proof.
  intros Hok Habs.
  destruct (procfs st !! (proc_net_condition st, c_str nm)) as [e|] eqn:He;
    [|reflexivity].
  destruct (ok_nodes_only st Hok _ _ He) as (var & Hv & [= Hk]).
  destruct (Habs _ _ Hv). now apply strcmp_eq_0.
Qed.

Lemma registry_ok_find_none (st : state) (nm : string) :
  registry_ok st ->
  (forall q var, kmem st !! q = Some var -> strcmp nm (name var) <> 0) ->
  find_condition (kmem st) nm (conditions_list st) = Some None.
Proof.
  intros Hok Habs. apply find_condition_none_intro.
  - now apply registry_ok_list_alloc.
  - intros q var _. apply Habs.
Qed.

Lemma name_ok_memcpy (nm : string) :
  xt_check_proc_name nm sizeof_name = 0 ->
  c_str (memcpy nm sizeof_name) = c_str nm.
Proof.
  intros H. apply xt_check_proc_name_ok in H as (_ & Hl & _).
  now apply c_str_memcpy.
Qed.

Lemma attach_fresh_eq
    (mp : module_params) (env : kernel_env) (info : xt_condition_mtinfo)
    (st : state) (p : addr) :
  registry_ok st ->
  xt_check_proc_name (info_name info) sizeof_name = 0 ->
  (forall q var,
      kmem st !! q = Some var -> strcmp (info_name info) (name var) <> 0) ->
  kmalloc_ret env = Some p ->
  proc_create_ok env = true ->
  condition_mt_check mp env info st =
  Some (0, set_condvar p info,
        {| conditions_list := p :: conditions_list st;
           proc_net_condition := proc_net_condition st;
           kmem := <[p := {| refcount := 1; enabled := false;
                             name := memcpy (info_name info) sizeof_name |}]>
                     (kmem st);
           procfs := <[(proc_net_condition st, c_str (info_name info)) :=
                         {| pde_mode := condition_list_perms mp;
                            pde_uid := condition_uid_perms mp;
                            pde_gid := condition_gid_perms mp;
                            pde_data := p |}]> (procfs st) |}).
Proof.
  intros Hok Hname Habs Hk Hpc.
  apply check_path_created;
    auto using registry_ok_find_none, registry_ok_no_node.
Qed.



(** C5.  Attach of a valid name no variable has yet, when kmalloc returns
    NULL or procfs cannot make the node: the result is -ENOMEM and the
    state is the one before the call; the object kmalloc had returned is
    freed again, the list and the nodes are as they were, and the match
    configuration holds no handle. *)
Theorem condition_mt_check_rollback
    (mp : module_params) (env : kernel_env) (info : xt_condition_mtinfo)
    (st : state) :
  registry_ok st ->
  xt_check_proc_name (info_name info) sizeof_name = 0 ->
  (forall q var,
      kmem st !! q = Some var -> strcmp (info_name info) (name var) <> 0) ->
  env_fresh env st ->
  kmalloc_ret env = None \/ proc_create_ok env = false ->
  condition_mt_check mp env info st = Some (- ENOMEM, info, st).
Proof.
  intros Hok Hname Habs Hfresh Hfail.
  pose proof (registry_ok_find_none st _ Hok Habs) as Hf.
  unfold env_fresh in Hfresh.
  destruct (kmalloc_ret env) as [p|] eqn:Hk.
  - destruct Hfail as [|Hpc]; [discriminate|].
    apply (check_path_proc_null mp env info st Hname p Hf Hk Hfresh).
    unfold proc_create_data. now rewrite Hpc.
  - now apply check_path_kmalloc_null.
Qed.

(** ** Detach *)

Lemma wrap_uint_small (z : Z) : 0 <= z <= UINT_MAX -> wrap_uint z = z.
Proof. intros H. unfold wrap_uint, UINT_MAX in *. apply Z.mod_small. lia. Qed.



Lemma elem_of_list_del_ne (p q : addr) (l : list addr) :
  q <> p -> q ∈ list_del p l <-> q ∈ l.
Proof.
  intros Hne. induction l as [|r l IH]; simpl; [tauto|].
  destruct (Pos.eqb_spec p r) as [->|Hpr].
  - rewrite elem_of_cons. split; [tauto|]. intros [?|?]; [congruence|assumption].
  - rewrite !elem_of_cons, IH. tauto.
Qed.

Lemma elem_of_list_del (p q : addr) (l : list addr) :
  q ∈ list_del p l -> q ∈ l.
Proof.
  induction l as [|r l IH]; simpl; [tauto|].
  destruct (Pos.eqb_spec p r) as [->|Hpr]; rewrite !elem_of_cons; tauto.
Qed.

Lemma NoDup_list_del (p : addr) (l : list addr) :
  NoDup l -> NoDup (list_del p l) /\ p ∉ list_del p l.
Proof.
  induction 1 as [|r l Hr Hl IH]; simpl.
  - split; [constructor|]. apply not_elem_of_nil.
  - destruct (Pos.eqb_spec p r) as [->|Hpr]; [now split|].
    destruct IH as [IH1 IH2]. split.
    + constructor; [|exact IH1]. intros Hin. now apply elem_of_list_del in Hin.
    + rewrite elem_of_cons. intros [?|?]; [congruence|contradiction].
Qed.

(** The two ways through destroy. *)
Lemma destroy_last (info : xt_condition_mtinfo) (st : state) (p : addr)
    (var : condition_variable) :
  condvar info = Some p -> kmem st !! p = Some var -> refcount var = 1 ->
  condition_mt_destroy info st =
  Some {| conditions_list := list_del p (conditions_list st);
          proc_net_condition := proc_net_condition st;
          kmem := delete p (kmem st);
          procfs :=
            match proc_net_condition st with
            | Some dir => remove_proc_entry (name var) dir (procfs st)
            | None => procfs st
            end |}.
Proof.
  intros Hc Hp Hr. unfold condition_mt_destroy. now rewrite Hc, Hp, Hr.
Qed.

Lemma destroy_shared (info : xt_condition_mtinfo) (st : state) (p : addr)
    (var : condition_variable) :
  condvar info = Some p -> kmem st !! p = Some var ->
  2 <= refcount var <= UINT_MAX ->
  condition_mt_destroy info st =
  Some (set_kmem (<[p := set_refcount (refcount var - 1) var]> (kmem st)) st).
Proof.
  intros Hc Hp Hr. unfold condition_mt_destroy. rewrite Hc, Hp.
  rewrite wrap_uint_small by lia.
  destruct (Z.eqb_spec (refcount var - 1) 0); [lia|reflexivity].
Qed.


(** ** Every call of checkentry on an initialised registry ends in one of
    the four outcomes *)

Lemma registry_ok_absent (st : state) (nm : string) :
  registry_ok st ->
  find_condition (kmem st) nm (conditions_list st) = Some None ->
  forall q var, kmem st !! q = Some var -> strcmp nm (name var) <> 0.
Proof.
  intros Hok Hf q v Hq.
  assert (Hin : q ∈ conditions_list st) by (apply (ok_list st Hok); eauto).
  destruct (find_condition_absent _ _ _ Hf q Hin) as (v' & Hv' & Hne).
  congruence.
Qed.

Lemma check_outcome
    (mp : module_params) (env : kernel_env) (info : xt_condition_mtinfo)
    (st : state) :
  registry_ok st -> env_fresh env st ->
  exists r info' st',
    condition_mt_check mp env info st = Some (r, info', st') /\
    attach_outcome mp info st r info' st'.
Proof.
  intros Hok Hfresh.
  destruct (Z.eq_dec (xt_check_proc_name (info_name info) sizeof_name) 0)
    as [Hname|Hname].
  2:{ exists (- EINVAL), info, st. split.
      - unfold condition_mt_check.
        destruct (Z.eqb_spec
                    (xt_check_proc_name (info_name info) sizeof_name) 0);
          [contradiction|reflexivity].
      - constructor. now apply xt_check_proc_name_invalid. }
  destruct (find_condition_total (kmem st) (info_name info)
              (conditions_list st) (registry_ok_list_alloc st Hok))
    as [[p|] Hf].
  - destruct (find_condition_found _ _ _ _ Hf) as (Hin & var & Hp & E).
    eexists _, _, _. split.
    + apply (check_path_found mp env info st Hname p var Hf Hp).
    + now constructor.
  - pose proof (registry_ok_absent st _ Hok Hf) as Habs.
    unfold env_fresh in Hfresh.
    destruct (kmalloc_ret env) as [p|] eqn:Hk.
    2:{ eexists _, _, _. split.
        - apply (check_path_kmalloc_null mp env info st Hname Hf Hk).
        - now constructor. }
    destruct (proc_create_ok env) eqn:Hpc.
    + eexists _, _, _. split.
      * apply (attach_fresh_eq mp env info st p Hok Hname Habs Hk Hpc).
      * now constructor.
    + eexists _, _, _. split.
      * apply (check_path_proc_null mp env info st Hname p Hf Hk Hfresh).
        unfold proc_create_data. now rewrite Hpc.
      * now constructor.
Qed.

(** ** The invariants are kept *)

Lemma registry_ok_init (dir : addr) :
  registry_ok (snd (condition_net_init (Some dir) boot_state)).
Proof.
  split; cbn.
  - eauto.
  - constructor.
  - intros p. rewrite lookup_empty. split.
    + intros H. inversion H.
    + intros [? H]. discriminate.
  - intros p var. rewrite lookup_empty. discriminate.
  - intros p q vp vq. rewrite lookup_empty. discriminate.
  - intros p var. rewrite lookup_empty. discriminate.
  - intros k e. rewrite lookup_empty. discriminate.
Qed.

Lemma registry_ok_set_refcount (st : state) (p : addr)
    (var : condition_variable) (r : Z) :
  registry_ok st -> kmem st !! p = Some var -> 1 <= r <= UINT_MAX ->
  registry_ok (set_kmem (<[p := set_refcount r var]> (kmem st)) st).
Proof.
  intros Hok Hp Hr.
  assert (Hlk : forall q v,
             <[p := set_refcount r var]> (kmem st) !! q = Some v ->
             exists v0, kmem st !! q = Some v0 /\ name v = name v0 /\
                        (q <> p -> v = v0) /\ (q = p -> refcount v = r)).
  { intros q v. destruct (decide (p = q)) as [->|Hne].
    - rewrite lookup_insert_eq. intros [= <-]. exists var.
      repeat split; [exact Hp|congruence]. 
    - rewrite lookup_insert_ne by exact Hne. intros Hq. exists v.
      repeat split; [exact Hq|congruence]. }
  split; cbn [set_kmem conditions_list proc_net_condition kmem procfs].
  - apply (ok_root st Hok).
  - apply (ok_nodup st Hok).
  - intros q. rewrite (ok_list st Hok q).
    destruct (decide (p = q)) as [->|Hne].
    + rewrite lookup_insert_eq, Hp. split; eauto.
    + now rewrite lookup_insert_ne.
  - intros q v Hq. destruct (Hlk q v Hq) as (v0 & Hq0 & _ & Hne & Heq).
    destruct (decide (q = p)) as [->|Hqp].
    + rewrite (Heq eq_refl). exact Hr.
    + rewrite (Hne Hqp). apply (ok_refcount st Hok q v0 Hq0).
  - intros q1 q2 v1 v2 H1 H2 E.
    destruct (Hlk q1 v1 H1) as (w1 & Hw1 & N1 & _).
    destruct (Hlk q2 v2 H2) as (w2 & Hw2 & N2 & _).
    rewrite N1, N2 in E. apply (ok_names st Hok q1 q2 w1 w2 Hw1 Hw2 E).
  - intros q v Hq. destruct (Hlk q v Hq) as (v0 & Hq0 & N & _).
    rewrite N. apply (ok_nodes st Hok q v0 Hq0).
  - intros k e He. destruct (ok_nodes_only st Hok k e He) as (v0 & Hv0 & Hk).
    destruct (decide (p = pde_data e)) as [Hpe|Hne].
    + exists (set_refcount r var). rewrite <- Hpe, lookup_insert_eq.
      split; [reflexivity|]. rewrite <- Hpe in Hv0.
      assert (v0 = var) by congruence. subst v0. exact Hk.
    + exists v0. now rewrite lookup_insert_ne.
Qed.

Lemma registry_ok_created (mp : module_params) (st : state) (nm : string)
    (p : addr) :
  registry_ok st ->
  xt_check_proc_name nm sizeof_name = 0 ->
  (forall q var, kmem st !! q = Some var -> strcmp nm (name var) <> 0) ->
  kmem st !! p = None ->
  registry_ok
    {| conditions_list := p :: conditions_list st;
       proc_net_condition := proc_net_condition st;
       kmem := <[p := {| refcount := 1; enabled := false;
                         name := memcpy nm sizeof_name |}]> (kmem st);
       procfs := <[(proc_net_condition st, c_str nm) :=
                     {| pde_mode := condition_list_perms mp;
                        pde_uid := condition_uid_perms mp;
                        pde_gid := condition_gid_perms mp;
                        pde_data := p |}]> (procfs st) |}.
Proof.
  intros Hok Hname Habs Hfresh.
  pose proof (name_ok_memcpy nm Hname) as Hcpy.
  split; cbn [conditions_list proc_net_condition kmem procfs].
  - apply (ok_root st Hok).
  - constructor; [|apply (ok_nodup st Hok)].
    rewrite (ok_list st Hok p), Hfresh. intros [? H]. discriminate.
  - intros q. rewrite elem_of_cons, (ok_list st Hok q).
    destruct (decide (p = q)) as [->|Hne].
    + rewrite lookup_insert_eq. split; eauto.
    + rewrite lookup_insert_ne by exact Hne. split; [|tauto].
      intros [?|?]; [congruence|assumption].
  - intros q v. destruct (decide (p = q)) as [->|Hne].
    + rewrite lookup_insert_eq. intros [= <-]. cbn. unfold UINT_MAX. lia.
    + rewrite lookup_insert_ne by exact Hne. apply (ok_refcount st Hok).
  - intros q1 q2 v1 v2.
    destruct (decide (p = q1)) as [<-|N1], (decide (p = q2)) as [<-|N2];
      rewrite ?lookup_insert_eq, ?lookup_insert_ne by assumption.
    + reflexivity.
    + intros [= <-] H2 E. cbn [name] in E. destruct (Habs q2 v2 H2).
      apply strcmp_eq_0. apply strcmp_eq_0 in E. congruence.
    + intros H1 [= <-] E. cbn [name] in E. destruct (Habs q1 v1 H1).
      apply strcmp_eq_0. apply strcmp_eq_0 in E. congruence.
    + apply (ok_names st Hok).
  - intros q v. destruct (decide (p = q)) as [<-|Hne].
    + rewrite lookup_insert_eq. intros [= <-]. cbn [name]. rewrite Hcpy.
      rewrite lookup_insert_eq. eauto.
    + rewrite lookup_insert_ne by exact Hne. intros Hq.
      rewrite lookup_insert_ne; [apply (ok_nodes st Hok q v Hq)|].
      intros [= E]. destruct (Habs q v Hq). now apply strcmp_eq_0.
  - intros k e.
    destruct (decide ((proc_net_condition st, c_str nm) = k)) as [<-|Hne].
    + rewrite lookup_insert_eq. intros [= <-]. cbn [pde_data].
      rewrite lookup_insert_eq. eexists. split; [reflexivity|].
      cbn [name]. now rewrite Hcpy.
    + rewrite lookup_insert_ne by exact Hne. intros He.
      destruct (ok_nodes_only st Hok k e He) as (v0 & Hv0 & Hk).
      exists v0. split; [|exact Hk].
      rewrite lookup_insert_ne; [exact Hv0|congruence].
Qed.

Lemma registry_ok_removed (st : state) (p : addr) (var : condition_variable) :
  registry_ok st -> kmem st !! p = Some var ->
  registry_ok
    {| conditions_list := list_del p (conditions_list st);
       proc_net_condition := proc_net_condition st;
       kmem := delete p (kmem st);
       procfs :=
         match proc_net_condition st with
         | Some dir => remove_proc_entry (name var) dir (procfs st)
         | None => procfs st
         end |}.
Proof.
  intros Hok Hp. destruct (ok_root st Hok) as [dir Hdir].
  destruct (NoDup_list_del p _ (ok_nodup st Hok)) as [Hnd Hnotin].
  split; cbn [conditions_list proc_net_condition kmem procfs];
    rewrite ?Hdir; unfold remove_proc_entry.
  - eauto.
  - exact Hnd.
  - intros q. destruct (decide (q = p)) as [->|Hne].
    + rewrite lookup_delete_eq. split; [contradiction|].
      intros [? H]. discriminate.
    + rewrite lookup_delete_ne by congruence.
      rewrite elem_of_list_del_ne by exact Hne. apply (ok_list st Hok).
  - intros q v Hq. apply lookup_delete_Some in Hq as [_ Hq].
    apply (ok_refcount st Hok q v Hq).
  - intros q1 q2 v1 v2 H1 H2.
    apply lookup_delete_Some in H1 as [_ H1], H2 as [_ H2].
    apply (ok_names st Hok q1 q2 v1 v2 H1 H2).
  - intros q v Hq. apply lookup_delete_Some in Hq as [Hne Hq].
    destruct (ok_nodes st Hok q v Hq) as (e & He & Hd). rewrite Hdir in He.
    exists e. split; [|exact Hd]. rewrite lookup_delete_ne; [exact He|].
    intros [= E]. apply Hne. apply (ok_names st Hok p q var v Hp Hq).
    now apply strcmp_eq_0.
  - intros k e He. apply lookup_delete_Some in He as [Hne He].
    destruct (ok_nodes_only st Hok k e He) as (v0 & Hv0 & Hk).
    rewrite Hdir in Hk. exists v0. split; [|exact Hk].
    rewrite lookup_delete_ne; [exact Hv0|].
    intros Epe. rewrite <- Epe in Hv0.
    assert (v0 = var) by congruence. subst v0. congruence.
Qed.

(** ** Counting handles *)

Lemma holders_cons (p q : addr) (hs : list addr) :
  holders p (q :: hs) = holders p hs + (if decide (q = p) then 1 else 0).
Proof.
  unfold holders. cbn [count_occ].
  destruct (Pos.eq_dec q p), (decide (q = p)); try contradiction; lia.
Qed.

Lemma holders_pos (p : addr) (hs : list addr) : p ∈ hs <-> 0 < holders p hs.
Proof.
  unfold holders. rewrite list_elem_of_In, (count_occ_In Pos.eq_dec). lia.
Qed.

Lemma holders_list_del (p q : addr) (hs : list addr) :
  q ∈ hs ->
  holders p (list_del q hs) = holders p hs - (if decide (q = p) then 1 else 0).
Proof.
  induction hs as [|r hs IH]; intros Hin; [inversion Hin|].
  cbn [list_del]. destruct (Pos.eqb_spec q r) as [->|Hqr].
  - rewrite holders_cons. lia.
  - apply elem_of_cons in Hin as [?|Hin]; [congruence|].
    rewrite !holders_cons, IH by exact Hin. lia.
Qed.

Lemma holders_repeat (p : addr) (n : nat) : holders p (repeat p n) = Z.of_nat n.
Proof.
  induction n as [|n IH]; [reflexivity|].
  cbn [repeat]. rewrite holders_cons, IH, decide_True by reflexivity. lia.
Qed.

(** ** One step keeps the invariants *)

Lemma step_attach_inv
    (mp : module_params) (env : kernel_env) (nm : string) (inv : bool)
    (c c' : config) :
  registry_ok (fst c) -> refcounts_match c ->
  step (Attach mp env nm inv) c = Some c' -> within_limit c' ->
  registry_ok (fst c') /\ refcounts_match c' /\
  forall p var, kmem (fst c) !! p = Some var -> is_Some (kmem (fst c') !! p).
Proof.
  destruct c as [st hs]. cbn [fst snd]. intros Hok Hrc Hstep Hlim.
  unfold step in Hstep. cbn [fst snd] in Hstep.
  destruct (decide (env_fresh env st)) as [Hfresh|]; [|discriminate].
  destruct (check_outcome mp env
              {| info_name := nm; invert := inv; condvar := None |} st
              Hok Hfresh) as (r & info' & st' & Hchk & Hout).
  rewrite Hchk in Hstep. injection Hstep as <-.
  unfold within_limit in Hlim. unfold refcounts_match in *.
  cbn [fst snd] in *.
  destruct Hout as [Hinv|p var Hname Hp E|Hname Habs|p Hname Habs Hp].
  - change (- EINVAL =? 0) with false in *. cbn iota in *.
    split; [exact Hok|]. split; [exact Hrc|eauto].
  - change (0 =? 0) with true in *. cbn [condvar set_condvar] in *.
    pose proof (ok_refcount st Hok p var Hp) as Hr.
    assert (Hle : refcount var + 1 <= UINT_MAX).
    { pose proof (Hlim p) as Hl. pose proof (Hrc p) as Hm. rewrite Hp in Hm.
      rewrite holders_cons, decide_True in Hl by reflexivity. lia. }
    rewrite wrap_uint_small by lia.
    split; [apply registry_ok_set_refcount; auto; lia|]. split.
    + intros q. cbn [set_kmem kmem]. rewrite holders_cons.
      destruct (decide (p = q)) as [->|Hne].
      * rewrite lookup_insert_eq. cbn [refcount set_refcount].
        specialize (Hrc q). rewrite Hp in Hrc. lia.
      * rewrite lookup_insert_ne by exact Hne. rewrite Hrc. lia.
    + intros q v Hq. cbn [set_kmem kmem].
      destruct (decide (p = q)) as [->|Hne].
      * rewrite lookup_insert_eq. eauto.
      * rewrite lookup_insert_ne by exact Hne. eauto.
  - change (- ENOMEM =? 0) with false in *. cbn iota in *.
    split; [exact Hok|]. split; [exact Hrc|eauto].
  - change (0 =? 0) with true in *. cbn [condvar set_condvar kmem] in *.
    split; [now apply registry_ok_created|]. split.
    + intros q. rewrite holders_cons.
      destruct (decide (p = q)) as [->|Hne].
      * rewrite lookup_insert_eq. cbn [refcount].
        specialize (Hrc q). rewrite Hp in Hrc. lia.
      * rewrite lookup_insert_ne by exact Hne. rewrite Hrc. lia.
    + intros q v Hq. destruct (decide (p = q)) as [->|Hne].
      * rewrite lookup_insert_eq. eauto.
      * rewrite lookup_insert_ne by exact Hne. eauto.
Qed.

(** What a permitted detach does: it finds its variable, and either
    removes it (refcount 1) or decrements it. *)
Lemma step_detach_cases (p : addr) (c c' : config) :
  registry_ok (fst c) -> refcounts_match c ->
  step (Detach p) c = Some c' ->
  exists var,
    kmem (fst c) !! p = Some var /\
    snd c' = list_del p (snd c) /\ p ∈ snd c /\
    ((refcount var = 1 /\
      fst c' =
      {| conditions_list := list_del p (conditions_list (fst c));
         proc_net_condition := proc_net_condition (fst c);
         kmem := delete p (kmem (fst c));
         procfs :=
           match proc_net_condition (fst c) with
           | Some dir => remove_proc_entry (name var) dir (procfs (fst c))
           | None => procfs (fst c)
           end |}) \/
     (2 <= refcount var <= UINT_MAX /\
      fst c' =
      set_kmem (<[p := set_refcount (refcount var - 1) var]> (kmem (fst c)))
        (fst c))).
Proof.
  destruct c as [st hs]. cbn [fst snd]. intros Hok Hrc Hstep.
  unfold step in Hstep. cbn [fst snd] in Hstep.
  destruct (decide (p ∈ hs)) as [Hin|]; [|discriminate].
  pose proof (Hrc p) as Hm. cbn [fst snd] in Hm.
  apply holders_pos in Hin as Hpos.
  destruct (kmem st !! p) as [var|] eqn:Hp; [|lia].
  pose proof (ok_refcount st Hok p var Hp) as Hr.
  exists var. split; [reflexivity|].
  destruct (Z.eq_dec (refcount var) 1) as [H1|H1].
  - rewrite (destroy_last
               {| info_name := ""; invert := false; condvar := Some p |}
               st p var eq_refl Hp H1) in Hstep.
    injection Hstep as <-. cbn [fst snd]. auto.
  - rewrite (destroy_shared
               {| info_name := ""; invert := false; condvar := Some p |}
               st p var eq_refl Hp) in Hstep by lia.
    injection Hstep as <-. cbn [fst snd]. split; [reflexivity|].
    split; [exact Hin|]. right. split; [lia|reflexivity].
Qed.

Lemma step_detach_inv (p : addr) (c c' : config) :
  registry_ok (fst c) -> refcounts_match c ->
  step (Detach p) c = Some c' ->
  registry_ok (fst c') /\ refcounts_match c'.
Proof.
  intros Hok Hrc Hstep.
  destruct (step_detach_cases p c c' Hok Hrc Hstep)
    as (var & Hp & Hhs & Hin & Hcase).
  destruct c as [st hs], c' as [st' hs']. cbn [fst snd] in *. subst hs'.
  unfold refcounts_match in *. cbn [fst snd] in *.
  destruct Hcase as [[H1 ->]|[H2 ->]].
  - split; [now apply registry_ok_removed|].
    intros q. cbn [kmem]. rewrite holders_list_del by exact Hin.
    destruct (decide (p = q)) as [->|Hne].
    + rewrite lookup_delete_eq. specialize (Hrc q). rewrite Hp in Hrc. lia.
    + rewrite lookup_delete_ne by exact Hne. rewrite Hrc. lia.
  - split; [apply registry_ok_set_refcount; auto; lia|].
    intros q. cbn [set_kmem kmem]. rewrite holders_list_del by exact Hin.
    destruct (decide (p = q)) as [->|Hne].
    + rewrite lookup_insert_eq. cbn [refcount set_refcount].
      specialize (Hrc q). rewrite Hp in Hrc. lia.
    + rewrite lookup_insert_ne by exact Hne. rewrite Hrc. lia.
Qed.

Lemma step_inv (o : op) (c c' : config) :
  registry_ok (fst c) -> refcounts_match c ->
  step o c = Some c' -> within_limit c' ->
  registry_ok (fst c') /\ refcounts_match c'.
Proof.
  intros Hok Hrc Hstep Hlim. destruct o as [mp env nm inv|p].
  - destruct (step_attach_inv mp env nm inv c c' Hok Hrc Hstep Hlim)
      as (? & ? & _). now split.
  - now apply (step_detach_inv p c c').
Qed.

Lemma reachable_inv (c : config) :
  reachable within_limit c -> registry_ok (fst c) /\ refcounts_match c.
Proof.
  induction 1 as [dir|c c' o _ [Hok Hrc] Hstep Hlim].
  - split; [apply registry_ok_init|]. intros p. cbn.
    now rewrite lookup_empty.
  - now apply (step_inv o c c').
Qed.

Lemma live_registered (st : state) (p : addr) (var : condition_variable) :
  registry_ok st -> kmem st !! p = Some var -> registered p st.
Proof.
  intros Hok Hp. split.
  - apply (ok_list st Hok). eauto.
  - destruct (ok_nodes st Hok p var Hp) as (e & He & Hd).
    exists var, e. repeat split; auto. apply (ok_root st Hok).
Qed.

(** Every operation the framework may issue is carried out: the code
    meets no dangling pointer. *)
Lemma step_progress (c : config) :
  registry_ok (fst c) -> refcounts_match c ->
  (forall mp env nm inv,
      env_fresh env (fst c) -> is_Some (step (Attach mp env nm inv) c)) /\
  (forall p, p ∈ snd c -> is_Some (step (Detach p) c)).
Proof.
  destruct c as [st hs]. cbn [fst snd]. intros Hok Hrc. split.
  - intros mp env nm inv Hfresh. unfold step. cbn [fst snd].
    rewrite decide_True by exact Hfresh.
    destruct (check_outcome mp env
                {| info_name := nm; invert := inv; condvar := None |} st
                Hok Hfresh) as (r & info' & st' & Hchk & _).
    rewrite Hchk. eauto.
  - intros p Hin. unfold step. cbn [fst snd].
    rewrite decide_True by exact Hin.
    pose proof (Hrc p) as Hm. cbn [fst snd] in Hm.
    apply holders_pos in Hin.
    destruct (kmem st !! p) as [var|] eqn:Hp; [|lia].
    pose proof (ok_refcount st Hok p var Hp) as Hr.
    destruct (Z.eq_dec (refcount var) 1) as [H1|H1].
    + rewrite (destroy_last
                 {| info_name := ""; invert := false; condvar := Some p |}
                 st p var eq_refl Hp H1). eauto.
    + rewrite (destroy_shared
                 {| info_name := ""; invert := false; condvar := Some p |}
                 st p var eq_refl Hp) by lia. eauto.
Qed.

(** ** The registry invariant *)

(** C1 (amended).  In every configuration reached from an initialised
    namespace by attach and detach operations during which no variable is
    referenced by more than UINT_MAX handles at a time: each variable's
    refcount is the number of handles referencing it; each live variable
    is on the list and has its node; every attach and every detach of a
    held handle is carried out; and such an operation removes a variable
    (from the list, from memory, its node from the root directory) exactly
    when it is the detach of a handle of that variable whose refcount
    is 1. *)
Theorem registry_refcount_invariant (c : config) :
  reachable within_limit c ->
  refcounts_match c /\
  registry_ok (fst c) /\
  (forall p var, kmem (fst c) !! p = Some var -> registered p (fst c)) /\
  (forall mp env nm inv,
      env_fresh env (fst c) -> is_Some (step (Attach mp env nm inv) c)) /\
  (forall p, p ∈ snd c -> is_Some (step (Detach p) c)) /\
  forall o c', step o c = Some c' -> within_limit c' ->
    forall p var, kmem (fst c) !! p = Some var ->
      (o = Detach p /\ refcount var = 1 -> removed p (name var) (fst c')) /\
      (~ (o = Detach p /\ refcount var = 1) -> registered p (fst c')).
Proof.
  intros Hreach. destruct (reachable_inv c Hreach) as [Hok Hrc].
  split; [exact Hrc|]. split; [exact Hok|].
  split; [intros p var; now apply live_registered|].
  destruct (step_progress c Hok Hrc) as [Hpa Hpd].
  split; [exact Hpa|]. split; [exact Hpd|].
  intros o c' Hstep Hlim p var Hp.
  destruct (step_inv o c c' Hok Hrc Hstep Hlim) as [Hok' _].
  destruct o as [mp env nm inv|q].
  - split; [intros [[=] _]|]. intros _.
    destruct (step_attach_inv mp env nm inv c c' Hok Hrc Hstep Hlim)
      as (_ & _ & Hlive).
    destruct (Hlive p var Hp) as [v' Hv']. now apply (live_registered _ _ v').
  - destruct (step_detach_cases q c c' Hok Hrc Hstep)
      as (vq & Hq & _ & _ & Hcase).
    split.
    + intros [[= ->] H1]. assert (vq = var) by congruence. subst vq.
      destruct Hcase as [[_ ->]|[H2 _]]; [|lia].
      destruct (ok_root _ Hok) as [dir Hdir].
      destruct (NoDup_list_del p _ (ok_nodup _ Hok)) as [_ Hnotin].
      split; [exact Hnotin|].
      cbn [kmem procfs proc_net_condition]. rewrite Hdir.
      split; [apply lookup_delete_eq|apply lookup_delete_eq].
    + intros Hnot.
      assert (Hlive : is_Some (kmem (fst c') !! p)).
      { destruct Hcase as [[H1 ->]|[H2 ->]]; cbn [kmem set_kmem].
        - rewrite lookup_delete_ne; [eauto|].
          intros ->. apply Hnot. split; [reflexivity|congruence].
        - destruct (decide (q = p)) as [->|Hne].
          + rewrite lookup_insert_eq. eauto.
          + rewrite lookup_insert_ne by exact Hne. eauto. }
      destruct Hlive as [v' Hv']. now apply (live_registered _ _ v').
Qed.

(** ** Refcount overflow *)

Lemma xt_check_proc_name_foo : xt_check_proc_name "foo" sizeof_name = 0.
Proof. reflexivity. Qed.

Lemma within_limit_small (st : state) (hs : list addr) :
  Z.of_nat (length hs) <= UINT_MAX -> within_limit (st, hs).
Proof.
  intros H p. cbn [snd]. unfold holders.
  pose proof (count_occ_bound Pos.eq_dec p hs) as Hb.
  apply Nat2Z.inj_le in Hb. unfold addr in *. lia.
Qed.

Lemma step_attach_foo_first (lim : config -> Prop) :
  lim (Sample.cfg_foo 1) -> reachable lim (Sample.cfg_foo 1).
Proof.
  intros Hlim.
  apply (reach_step lim (Sample.st_init, []) (Sample.cfg_foo 1)
           (Attach default_params (Sample.env_ok 1%positive) "foo" false)).
  - apply (reach_init lim 7%positive).
  - vm_compute. reflexivity.
  - exact Hlim.
Qed.

Lemma step_attach_foo_again (n : nat) :
  step (Attach default_params Sample.env_oom "foo" false)
       (Sample.cfg_foo (S n)) = Some (Sample.cfg_foo (S (S n))).
Proof.
  unfold step, Sample.cfg_foo. cbn [fst snd].
  destruct (decide (env_fresh Sample.env_oom
                      (Sample.st_foo (wrap_uint (Z.of_nat (S n))))))
    as [_|Hn]; [|destruct Hn; exact I].
  rewrite (check_path_found default_params Sample.env_oom
             {| info_name := "foo"; invert := false; condvar := None |}
             (Sample.st_foo (wrap_uint (Z.of_nat (S n))))
             xt_check_proc_name_foo 1%positive
             (Sample.var_foo (wrap_uint (Z.of_nat (S n))))).
  - change (0 =? 0) with true. cbn [condvar set_condvar repeat].
    do 2 f_equal. unfold Sample.st_foo, set_kmem.
    cbn [conditions_list proc_net_condition kmem procfs].
    f_equal. rewrite insert_singleton_eq. f_equal.
    unfold set_refcount, Sample.var_foo. cbn [refcount enabled name].
    f_equal. unfold wrap_uint.
    rewrite Zplus_mod_idemp_l. f_equal. lia.
  - cbn [Sample.st_foo kmem conditions_list find_condition info_name].
    rewrite lookup_singleton_eq. reflexivity.
  - cbn [Sample.st_foo kmem]. apply lookup_singleton_eq.
Qed.

Lemma cfg_foo_reachable (n : nat) : reachable no_limit (Sample.cfg_foo (S n)).
Proof.
  induction n as [|n IH].
  - apply step_attach_foo_first. exact I.
  - apply (reach_step no_limit _ _ _ IH (step_attach_foo_again n)). exact I.
Qed.

(** C1 as stated, for every sequence of operations, fails: after 2^32
    attaches of one name the [unsigned int] refcount has wrapped to 0 while
    2^32 handles reference the variable. *)
Lemma refcount_wraps_at_2_32_handles :
  ~ (forall c : config, reachable no_limit c -> refcounts_match c).
Proof.
  intros H.
  destruct (Z_of_nat_complete UINT_MAX) as [n Hn]; [unfold UINT_MAX; lia|].
  specialize (H (Sample.cfg_foo (S n)) (cfg_foo_reachable n) 1%positive).
  unfold Sample.cfg_foo in H. cbn [fst snd Sample.st_foo kmem] in H.
  rewrite holders_repeat, lookup_singleton_eq in H.
  cbn [refcount Sample.var_foo] in H.
  rewrite Nat2Z.inj_succ, <- Hn in H. vm_compute in H. discriminate.
Qed.

(** ** After the namespace's exit *)

(** C10.  When the root directory pointer is NULL, as [condition_net_exit]
    leaves it, the detach of the last handle of a variable still takes the
    variable off the list and frees it, and calls no node removal: the
    nodes are what they were. *)
Theorem condition_mt_destroy_after_exit
    (info : xt_condition_mtinfo) (st : state) (p : addr)
    (var : condition_variable) :
  proc_net_condition st = None ->
  NoDup (conditions_list st) ->
  condvar info = Some p ->
  kmem st !! p = Some var ->
  refcount var = 1 ->
  (forall st0, proc_net_condition (condition_net_exit st0) = None) /\
  exists st',
    condition_mt_destroy info st = Some st' /\
    conditions_list st' = list_del p (conditions_list st) /\
    (p ∉ conditions_list st') /\
    kmem st' = delete p (kmem st) /\
    kmem st' !! p = None /\
    procfs st' = procfs st /\
    proc_net_condition st' = None.
Proof.
  intros Hroot Hnd Hc Hp H1. split; [reflexivity|].
  eexists. split; [apply (destroy_last info st p var Hc Hp H1)|].
  cbn [conditions_list kmem procfs proc_net_condition]. rewrite Hroot.
  destruct (NoDup_list_del p _ Hnd) as [_ Hnotin].
  repeat split; auto. apply lookup_delete_eq.
Qed.



(** ** The theorems at sample states *)

Lemma registry_ok_st_foo : registry_ok (Sample.st_foo 1).
Proof.
  apply (reachable_inv (Sample.cfg_foo 1)).
  apply step_attach_foo_first. apply within_limit_small.
  unfold UINT_MAX. cbn. lia.
Qed.

Lemma st_init_absent (nm : string) (q : addr) (var : condition_variable) :
  kmem Sample.st_init !! q = Some var -> strcmp nm (name var) <> 0.
Proof. cbn. rewrite lookup_empty. discriminate. Qed.

Lemma registry_refcount_invariant_witness :
  refcounts_match (Sample.cfg_foo 1) /\ registry_ok (Sample.st_foo 1).
Proof.
  destruct (registry_refcount_invariant (Sample.cfg_foo 1)) as (H1 & H2 & _).
  - apply step_attach_foo_first. apply within_limit_small.
    unfold UINT_MAX. cbn. lia.
  - split; [exact H1|exact H2].
Defined.




Lemma condition_mt_check_rollback_witness :
  condition_mt_check default_params Sample.env_oom Sample.info_foo
    Sample.st_init
  = Some (- ENOMEM, Sample.info_foo, Sample.st_init).
Proof.
  apply (condition_mt_check_rollback default_params Sample.env_oom
           Sample.info_foo Sample.st_init).
  - apply (registry_ok_init 7%positive).
  - reflexivity.
  - apply st_init_absent.
  - exact I.
  - left. reflexivity.
Defined.


Lemma condition_mt_xor_witness :
  condition_mt (set_condvar 1%positive Sample.info_foo) (Sample.st_foo 1)
  = Some false.
Proof.
  apply (condition_mt_xor (set_condvar 1%positive Sample.info_foo)
           1%positive (Sample.var_foo 1) (Sample.st_foo 1)).
  - reflexivity.
  - reflexivity.
Defined.

Lemma condition_mt_check_invalid_name_witness :
  condition_mt_check default_params (Sample.env_ok 1%positive)
    {| info_name := "a/b"; invert := false; condvar := None |} Sample.st_init
  = Some (- EINVAL,
          {| info_name := "a/b"; invert := false; condvar := None |},
          Sample.st_init).
Proof.
  apply (condition_mt_check_invalid_name default_params
           (Sample.env_ok 1%positive)
           {| info_name := "a/b"; invert := false; condvar := None |}
           Sample.st_init).
  right. right. left. reflexivity.
Defined.


Lemma condition_mt_destroy_after_exit_witness :
  exists st',
    condition_mt_destroy (set_condvar 1%positive Sample.info_foo)
      Sample.st_torn_down = Some st' /\
    conditions_list st' = [] /\
    kmem st' !! 1%positive = None /\
    procfs st' = procfs Sample.st_torn_down.
Proof.
  destruct (condition_mt_destroy_after_exit
              (set_condvar 1%positive Sample.info_foo) Sample.st_torn_down
              1%positive (Sample.var_foo 1))
    as (_ & st' & H1 & H2 & _ & _ & H3 & H4 & _).
  - reflexivity.
  - cbn. apply NoDup_singleton.
  - reflexivity.
  - reflexivity.
  - reflexivity.
  - exists st'. repeat split; auto.
Defined.

(** ** The code on concrete inputs *)

Example xt_check_proc_name_samples :
  xt_check_proc_name "foo" sizeof_name = 0 /\
  xt_check_proc_name "" sizeof_name = - EINVAL /\
  xt_check_proc_name "." sizeof_name = - EINVAL /\
  xt_check_proc_name ".." sizeof_name = - EINVAL /\
  xt_check_proc_name "net/foo" sizeof_name = - EINVAL /\
  xt_check_proc_name "012345678901234567890123456789" sizeof_name = 0 /\
  xt_check_proc_name "0123456789012345678901234567890" sizeof_name
    = - ENAMETOOLONG.
Proof. repeat split. Qed.

Example strcmp_samples :
  strcmp "foo" "foo" = 0 /\ strcmp "foo" "Foo" = 32 /\
  strcmp "foo" "fooo" = -111 /\
  strcmp (String "f" (String NUL "x")) "f" = 0.
Proof. repeat split. Qed.

Example condition_proc_write_fault :
  condition_proc_write 1%positive user_fault 5 (Sample.st_foo 1)
  = Some (- EFAULT, Sample.st_foo 1).
Proof. reflexivity. Qed.

Example condition_proc_write_garbage :
  condition_proc_write 1%positive (user_bytes "X") 1 (Sample.st_foo 1)
  = Some (1, Sample.st_foo 1) /\
  condition_proc_write 1%positive (user_bytes "") 0 (Sample.st_foo 1)
  = Some (0, Sample.st_foo 1).
Proof. split; vm_compute; reflexivity. Qed.

(** attach "gate", write "1", match, write "0", match, detach: the
    registry ends as it began. *)
Example gate_end_to_end :
  ('(r, h, st1) ← condition_mt_check default_params
                     (Sample.env_ok 1%positive)
                     {| info_name := "gate"; invert := false;
                        condvar := None |} Sample.st_init;
   '(w1, st2) ← condition_proc_write 1%positive (user_bytes "1") 1 st1;
   m1 ← condition_mt h st2;
   '(w0, st3) ← condition_proc_write 1%positive (user_bytes "0") 1 st2;
   m0 ← condition_mt h st3;
   st4 ← condition_mt_destroy h st3;
   Some (r, w1, m1, w0, m0, st4))
  = Some (0, 1, true, 1, false, Sample.st_init).
Proof. vm_compute. reflexivity. Qed.

(** Two rules on "foo", one removed: the variable stays, with refcount 1,
    and its node still answers a read. *)
Example two_attaches_one_detach :
  ('(_, h1, st1) ← condition_mt_check default_params
                      (Sample.env_ok 1%positive) Sample.info_foo
                      Sample.st_init;
   '(_, h2, st2) ← condition_mt_check default_params
                      (Sample.env_ok 2%positive) Sample.info_foo st1;
   st3 ← condition_mt_destroy h1 st2;
   rd ← condition_proc_show 1%positive st3;
   Some (condvar h1, condvar h2, kmem st2 !! 1%positive, st3, rd))
  = Some (Some 1%positive, Some 1%positive, Some (Sample.var_foo 2),
          Sample.st_foo 1, (0, String "0" newline)).
Proof. vm_compute. reflexivity. Qed.

(** * Further properties of the registry code *)

(** ** Handles are never dangling *)

(** X1.  In every configuration reached within the handle limit, each
    handle an installed rule holds points to a live variable, so the match
    function has a result for it: the variable's [enabled] xor the rule's
    [invert]. *)
Theorem held_handle_is_live (c : config) (info : xt_condition_mtinfo)
    (p : addr) :
  reachable within_limit c ->
  condvar info = Some p ->
  p ∈ snd c ->
  exists var,
    kmem (fst c) !! p = Some var /\
    p ∈ conditions_list (fst c) /\
    condition_mt info (fst c) = Some (xorb (enabled var) (invert info)).
Proof.
  intros Hreach Hc Hin. destruct (reachable_inv c Hreach) as [Hok Hrc].
  pose proof (Hrc p) as Hm. apply holders_pos in Hin.
  destruct (kmem (fst c) !! p) as [var|] eqn:Hp; [|lia].
  exists var. split; [reflexivity|]. split.
  - apply (ok_list _ Hok). rewrite Hp. eauto.
  - unfold condition_mt. now rewrite Hc, Hp.
Qed.

Lemma held_handle_is_live_witness :
  exists var,
    kmem (Sample.st_foo 1) !! 1%positive = Some var /\
    1%positive ∈ conditions_list (Sample.st_foo 1) /\
    condition_mt (set_condvar 1%positive Sample.info_foo) (Sample.st_foo 1)
    = Some (xorb (enabled var) false).
Proof.
  apply (held_handle_is_live (Sample.cfg_foo 1)
           (set_condvar 1%positive Sample.info_foo) 1%positive).
  - apply step_attach_foo_first. apply within_limit_small.
    unfold UINT_MAX. cbn. lia.
  - reflexivity.
  - cbn. left.
Defined.

(** ** Removing every rule *)

Lemma list_del_perm (p : addr) (hs : list addr) :
  p ∈ hs -> hs ≡ₚ p :: list_del p hs.
Proof.
  induction hs as [|q hs IH]; intros Hin; [inversion Hin|].
  cbn [list_del]. destruct (Pos.eqb_spec p q) as [->|Hne]; [reflexivity|].
  apply elem_of_cons in Hin as [?|Hin]; [congruence|].
  rewrite (IH Hin) at 1. apply Permutation_swap.
Qed.

Lemma perm_cons_list_del (p : addr) (ps hs : list addr) :
  p :: ps ≡ₚ hs -> ps ≡ₚ list_del p hs.
Proof.
  intros Hperm.
  assert (Hin : p ∈ hs) by (rewrite <- Hperm; left).
  apply (Permutation_cons_inv (a := p)).
  now rewrite Hperm, <- list_del_perm.
Qed.

(** A registry no rule refers to is the registry as initialised. *)
Lemma registry_ok_no_handles (st : state) :
  registry_ok st -> refcounts_match (st, []) ->
  exists dir,
    proc_net_condition st = Some dir /\
    st = snd (condition_net_init (Some dir) boot_state).
Proof.
  intros Hok Hrc. destruct (ok_root st Hok) as [dir Hdir].
  exists dir. split; [exact Hdir|].
  assert (Hk : kmem st = ∅).
  { apply map_eq. intros p. rewrite lookup_empty.
    destruct (kmem st !! p) as [var|] eqn:Hp; [|reflexivity].
    pose proof (Hrc p) as Hm. cbn [fst snd] in Hm. rewrite Hp in Hm.
    pose proof (ok_refcount st Hok p var Hp). unfold holders in Hm.
    cbn in Hm. lia. }
  assert (Hl : conditions_list st = []).
  { destruct (conditions_list st) as [|p l] eqn:El; [reflexivity|].
    assert (Hin : p ∈ conditions_list st) by (rewrite El; left).
    apply (ok_list st Hok) in Hin as [v Hv].
    rewrite Hk, lookup_empty in Hv. discriminate. }
  assert (Hf : procfs st = ∅).
  { apply map_eq. intros k. rewrite lookup_empty.
    destruct (procfs st !! k) as [e|] eqn:He; [|reflexivity].
    destruct (ok_nodes_only st Hok k e He) as (v & Hv & _).
    rewrite Hk, lookup_empty in Hv. discriminate. }
  destruct st as [l r h f]. cbn in *. now subst.
Qed.

Lemma run_detach_all (ps : list addr) (c : config) :
  registry_ok (fst c) -> refcounts_match c -> ps ≡ₚ snd c ->
  exists st',
    run (map Detach ps) c = Some (st', []) /\
    registry_ok st' /\ refcounts_match (st', []) /\
    proc_net_condition st' = proc_net_condition (fst c).
Proof.
  revert c. induction ps as [|p ps IH]; intros c Hok Hrc Hperm.
  - apply Permutation_nil_l in Hperm. destruct c as [st hs].
    cbn [snd] in Hperm. subst hs. exists st.
    split; [reflexivity|]. split; [exact Hok|]. split; [exact Hrc|reflexivity].
  - assert (Hin : p ∈ snd c) by (rewrite <- Hperm; left).
    destruct (step_progress c Hok Hrc) as [_ Hpd].
    destruct (Hpd p Hin) as [c' Hstep].
    destruct (step_detach_inv p c c' Hok Hrc Hstep) as [Hok' Hrc'].
    destruct (step_detach_cases p c c' Hok Hrc Hstep)
      as (var & _ & Hhs & _ & Hcase).
    assert (Hroot : proc_net_condition (fst c') = proc_net_condition (fst c))
      by (destruct Hcase as [[_ ->]|[_ ->]]; reflexivity).
    destruct (IH c' Hok' Hrc') as (st' & Hrun & Hok2 & Hrc2 & Hroot2).
    { rewrite Hhs. now apply perm_cons_list_del. }
    exists st'. split; [|split; [exact Hok2|split; [exact Hrc2|congruence]]].
    cbn [map run]. now rewrite Hstep.
Qed.

(** X2.  From any configuration reached within the handle limit, the
    detach of every held handle, in whatever order, is carried out and
    leaves the namespace exactly as [condition_net_init] made it: no
    variable, no node, the same root directory. *)
Theorem detach_all_restores_init (c : config) (ps : list addr) :
  reachable within_limit c ->
  ps ≡ₚ snd c ->
  exists dir,
    proc_net_condition (fst c) = Some dir /\
    run (map Detach ps) c
    = Some (snd (condition_net_init (Some dir) boot_state), []).
Proof.
  intros Hreach Hperm. destruct (reachable_inv c Hreach) as [Hok Hrc].
  destruct (run_detach_all ps c Hok Hrc Hperm)
    as (st' & Hrun & Hok' & Hrc' & Hroot).
  destruct (registry_ok_no_handles st' Hok' Hrc') as (dir & Hdir & Heq).
  exists dir. split; [congruence|]. now rewrite <- Heq.
Qed.

Lemma cfg_foo_2_reachable : reachable within_limit (Sample.cfg_foo 2).
Proof.
  apply (reach_step within_limit (Sample.cfg_foo 1) (Sample.cfg_foo 2)
           (Attach default_params Sample.env_oom "foo" false)).
  - apply step_attach_foo_first. apply within_limit_small.
    unfold UINT_MAX. cbn. lia.
  - apply (step_attach_foo_again 0).
  - apply within_limit_small. unfold UINT_MAX. cbn. lia.
Qed.

Lemma detach_all_restores_init_witness :
  exists dir,
    proc_net_condition (fst (Sample.cfg_foo 2)) = Some dir /\
    run (map Detach [1%positive; 1%positive]) (Sample.cfg_foo 2)
    = Some (snd (condition_net_init (Some dir) boot_state), []).
Proof.
  apply (detach_all_restores_init (Sample.cfg_foo 2)
           [1%positive; 1%positive]).
  - exact cfg_foo_2_reachable.
  - reflexivity.
Defined.

(** ** The namespace's exit *)

Lemma exit_removes_nodes (st : state) :
  registry_ok st -> procfs (condition_net_exit st) = ∅.
Proof.
  intros Hok. destruct (ok_root st Hok) as [dir Hdir].
  unfold condition_net_exit. cbn [procfs]. rewrite Hdir.
  unfold remove_proc_subtree. apply map_empty. intros k.
  apply map_lookup_filter_None. right. intros e He Hne.
  destruct (ok_nodes_only st Hok k e He) as (v & _ & ->).
  cbn in Hne. congruence.
Qed.

(** X3.  [condition_net_exit] on an initialised registry removes the node
    of every variable and clears the root pointer, but frees no variable
    and leaves the list alone: the match function answers for every handle
    as before.  A second exit changes nothing. *)
Theorem condition_net_exit_keeps_variables (st : state) :
  registry_ok st ->
  procfs (condition_net_exit st) = ∅ /\
  proc_net_condition (condition_net_exit st) = None /\
  kmem (condition_net_exit st) = kmem st /\
  conditions_list (condition_net_exit st) = conditions_list st /\
  (forall info, condition_mt info (condition_net_exit st)
                = condition_mt info st) /\
  condition_net_exit (condition_net_exit st) = condition_net_exit st.
Proof.
  intros Hok. split; [now apply exit_removes_nodes|].
  repeat split.
Qed.

Lemma condition_net_exit_keeps_variables_witness :
  procfs (condition_net_exit (Sample.st_foo 1)) = ∅ /\
  kmem (condition_net_exit (Sample.st_foo 1)) = kmem (Sample.st_foo 1).
Proof.
  destruct (condition_net_exit_keeps_variables (Sample.st_foo 1))
    as (H1 & _ & H2 & _).
  - exact registry_ok_st_foo.
  - split; [exact H1|exact H2].
Defined.

(** ** Detach after the exit *)

Lemma registry_ok_alloc_ok (st : state) : registry_ok st -> alloc_ok st.
Proof.
  intros Hok. split.
  - apply (ok_nodup st Hok).
  - apply (ok_list st Hok).
  - apply (ok_refcount st Hok).
Qed.

Lemma alloc_ok_removed (st : state) (p : addr) (fs : gmap _ _) :
  alloc_ok st ->
  alloc_ok {| conditions_list := list_del p (conditions_list st);
              proc_net_condition := proc_net_condition st;
              kmem := delete p (kmem st);
              procfs := fs |}.
Proof.
  intros Hok.
  destruct (NoDup_list_del p _ (al_nodup st Hok)) as [Hnd Hnotin].
  split; cbn [conditions_list kmem].
  - exact Hnd.
  - intros q. destruct (decide (q = p)) as [->|Hne].
    + rewrite lookup_delete_eq. split; [contradiction|].
      intros [? H]. discriminate.
    + rewrite lookup_delete_ne by congruence.
      rewrite elem_of_list_del_ne by exact Hne. apply (al_list st Hok).
  - intros q v Hq. apply lookup_delete_Some in Hq as [_ Hq].
    apply (al_refcount st Hok q v Hq).
Qed.

Lemma alloc_ok_set_refcount (st : state) (p : addr)
    (var : condition_variable) (r : Z) :
  alloc_ok st -> kmem st !! p = Some var -> 1 <= r <= UINT_MAX ->
  alloc_ok (set_kmem (<[p := set_refcount r var]> (kmem st)) st).
Proof.
  intros Hok Hp Hr. split; cbn [set_kmem conditions_list kmem].
  - apply (al_nodup st Hok).
  - intros q. rewrite (al_list st Hok q).
    destruct (decide (p = q)) as [->|Hne].
    + rewrite lookup_insert_eq, Hp. split; eauto.
    + now rewrite lookup_insert_ne.
  - intros q v. destruct (decide (p = q)) as [->|Hne].
    + rewrite lookup_insert_eq. intros [= <-]. exact Hr.
    + rewrite lookup_insert_ne by exact Hne. apply (al_refcount st Hok).
Qed.

(** One detach of a held handle, whether or not the root directory is
    still there. *)
Lemma detach_alloc_ok (st : state) (hs : list addr) (p : addr) :
  alloc_ok st -> refcounts_match (st, hs) -> p ∈ hs ->
  exists st',
    step (Detach p) (st, hs) = Some (st', list_del p hs) /\
    alloc_ok st' /\ refcounts_match (st', list_del p hs) /\
    proc_net_condition st' = proc_net_condition st /\
    (proc_net_condition st = None -> procfs st' = procfs st).
Proof.
  intros Hok Hrc Hin. unfold step. cbn [fst snd].
  rewrite decide_True by exact Hin.
  pose proof (Hrc p) as Hm. cbn [fst snd] in Hm.
  apply holders_pos in Hin as Hpos.
  destruct (kmem st !! p) as [var|] eqn:Hp; [|lia].
  pose proof (al_refcount st Hok p var Hp) as Hr.
  unfold refcounts_match in *. cbn [fst snd] in *.
  destruct (Z.eq_dec (refcount var) 1) as [H1|H1].
  - rewrite (destroy_last
               {| info_name := ""; invert := false; condvar := Some p |}
               st p var eq_refl Hp H1).
    eexists. split; [reflexivity|]. split; [now apply alloc_ok_removed|].
    cbn [kmem proc_net_condition procfs]. split; [|split; [reflexivity|]].
    + intros q. rewrite holders_list_del by exact Hin.
      destruct (decide (p = q)) as [->|Hne].
      * rewrite lookup_delete_eq. specialize (Hrc q). rewrite Hp in Hrc. lia.
      * rewrite lookup_delete_ne by exact Hne. rewrite Hrc. lia.
    + now intros ->.
  - rewrite (destroy_shared
               {| info_name := ""; invert := false; condvar := Some p |}
               st p var eq_refl Hp) by lia.
    eexists. split; [reflexivity|].
    split; [apply alloc_ok_set_refcount; auto; lia|].
    cbn [set_kmem kmem proc_net_condition procfs].
    split; [|split; reflexivity].
    intros q. rewrite holders_list_del by exact Hin.
    destruct (decide (p = q)) as [->|Hne].
    + rewrite lookup_insert_eq. cbn [refcount set_refcount].
      specialize (Hrc q). rewrite Hp in Hrc. lia.
    + rewrite lookup_insert_ne by exact Hne. rewrite Hrc. lia.
Qed.

Lemma run_detach_all_torn_down (ps : list addr) (st : state)
    (hs : list addr) :
  alloc_ok st -> refcounts_match (st, hs) ->
  proc_net_condition st = None -> ps ≡ₚ hs ->
  exists st',
    run (map Detach ps) (st, hs) = Some (st', []) /\
    alloc_ok st' /\ refcounts_match (st', []) /\
    proc_net_condition st' = None /\ procfs st' = procfs st.
Proof.
  revert st hs. induction ps as [|p ps IH]; intros st hs Hok Hrc Hroot Hperm.
  - apply Permutation_nil_l in Hperm. subst hs. exists st.
    split; [reflexivity|]. split; [exact Hok|]. split; [exact Hrc|].
    split; [exact Hroot|reflexivity].
  - assert (Hin : p ∈ hs) by (rewrite <- Hperm; left).
    destruct (detach_alloc_ok st hs p Hok Hrc Hin)
      as (st1 & Hstep & Hok1 & Hrc1 & Hroot1 & Hfs1).
    destruct (IH st1 (list_del p hs) Hok1 Hrc1)
      as (st' & Hrun & Hok' & Hrc' & Hroot' & Hfs').
    { congruence. }
    { now apply perm_cons_list_del. }
    exists st'. split.
    + cbn [map run]. now rewrite Hstep.
    + split; [exact Hok'|]. split; [exact Hrc'|]. split; [exact Hroot'|].
      rewrite Hfs'. now apply Hfs1.
Qed.

(** X4.  When the namespace exits while rules still hold handles, and the
    rules are then removed in whatever order, every detach is carried out
    and in the end nothing is left: no variable on the list, none
    allocated, no node, the root pointer NULL. *)
Theorem exit_then_detach_all_frees (c : config) (ps : list addr) :
  reachable within_limit c ->
  ps ≡ₚ snd c ->
  run (map Detach ps) (condition_net_exit (fst c), snd c)
  = Some (boot_state, []).
Proof.
  intros Hreach Hperm. destruct (reachable_inv c Hreach) as [Hok Hrc].
  assert (Hal : alloc_ok (condition_net_exit (fst c))).
  { destruct (registry_ok_alloc_ok _ Hok) as [H1 H2 H3]. now split. }
  assert (Hrce : refcounts_match (condition_net_exit (fst c), snd c)).
  { destruct c as [st hs]. exact Hrc. }
  destruct (run_detach_all_torn_down ps (condition_net_exit (fst c)) (snd c)
              Hal Hrce eq_refl Hperm)
    as (st' & Hrun & Hok' & Hrc' & Hroot & Hfs).
  rewrite Hrun. do 2 f_equal.
  { 
    rewrite (exit_removes_nodes _ Hok) in Hfs.
    assert (Hk : kmem st' = ∅).
    { apply map_eq. intros p. rewrite lookup_empty.
      destruct (kmem st' !! p) as [var|] eqn:Hp; [|reflexivity].
      pose proof (Hrc' p) as Hm. cbn [fst snd] in Hm. rewrite Hp in Hm.
      pose proof (al_refcount st' Hok' p var Hp). unfold holders in Hm.
      cbn in Hm. lia. }
    assert (Hl : conditions_list st' = []).
    { destruct (conditions_list st') as [|p l] eqn:El; [reflexivity|].
      assert (Hin : p ∈ conditions_list st') by (rewrite El; left).
      apply (al_list st' Hok') in Hin as [v Hv].
      rewrite Hk, lookup_empty in Hv. discriminate. }
    destruct st' as [l r h f]. cbn in *. now subst. }
Qed.

Lemma exit_then_detach_all_frees_witness :
  run (map Detach [1%positive; 1%positive])
      (condition_net_exit (fst (Sample.cfg_foo 2)), snd (Sample.cfg_foo 2))
  = Some (boot_state, []).
Proof.
  apply (exit_then_detach_all_frees (Sample.cfg_foo 2)
           [1%positive; 1%positive]).
  - exact cfg_foo_2_reachable.
  - reflexivity.
Defined.

(** ** Writes to a node and the registry *)

Lemma registry_ok_update (st : state) (p : addr)
    (var var' : condition_variable) :
  registry_ok st -> kmem st !! p = Some var ->
  name var' = name var -> 1 <= refcount var' <= UINT_MAX ->
  registry_ok (set_kmem (<[p := var']> (kmem st)) st).
Proof.
  intros Hok Hp Hn Hr.
  assert (Hlk : forall q v,
             <[p := var']> (kmem st) !! q = Some v ->
             exists v0, kmem st !! q = Some v0 /\ name v = name v0 /\
                        1 <= refcount v <= UINT_MAX).
  { intros q v. destruct (decide (p = q)) as [->|Hne].
    - rewrite lookup_insert_eq. intros [= <-]. exists var. auto.
    - rewrite lookup_insert_ne by exact Hne. intros Hq. exists v.
      split; [exact Hq|]. split; [reflexivity|].
      apply (ok_refcount st Hok q v Hq). }
  split; cbn [set_kmem conditions_list proc_net_condition kmem procfs].
  - apply (ok_root st Hok).
  - apply (ok_nodup st Hok).
  - intros q. rewrite (ok_list st Hok q).
    destruct (decide (p = q)) as [->|Hne].
    + rewrite lookup_insert_eq, Hp. split; eauto.
    + now rewrite lookup_insert_ne.
  - intros q v Hq. now destruct (Hlk q v Hq) as (v0 & _ & _ & H).
  - intros q1 q2 v1 v2 H1 H2 E.
    destruct (Hlk q1 v1 H1) as (w1 & Hw1 & N1 & _).
    destruct (Hlk q2 v2 H2) as (w2 & Hw2 & N2 & _).
    rewrite N1, N2 in E. apply (ok_names st Hok q1 q2 w1 w2 Hw1 Hw2 E).
  - intros q v Hq. destruct (Hlk q v Hq) as (v0 & Hq0 & N & _).
    rewrite N. apply (ok_nodes st Hok q v0 Hq0).
  - intros k e He. destruct (ok_nodes_only st Hok k e He) as (v0 & Hv0 & Hk).
    destruct (decide (p = pde_data e)) as [Hpe|Hne].
    + exists var'. rewrite <- Hpe, lookup_insert_eq.
      split; [reflexivity|]. rewrite <- Hpe in Hv0.
      assert (v0 = var) by congruence. subst v0. now rewrite Hn.
    + exists v0. now rewrite lookup_insert_ne.
Qed.

(** Whatever a write does, it is the replacement of the node's variable
    by the same variable with some value of [enabled]. *)
Lemma condition_proc_write_effect (p : addr) (buffer : user_ptr) (len : Z)
    (st st' : state) (r : Z) :
  condition_proc_write p buffer len st = Some (r, st') ->
  exists var b,
    kmem st !! p = Some var /\
    st' = set_kmem (<[p := set_enabled b var]> (kmem st)) st.
Proof.
  unfold condition_proc_write. destruct (kmem st !! p) as [var|] eqn:Hp;
    [|discriminate].
  assert (Hid : st = set_kmem (<[p := set_enabled (enabled var) var]>
                                  (kmem st)) st).
  { replace (set_enabled (enabled var) var) with var by (now destruct var).
    now rewrite set_kmem_insert_id. }
  destruct (0 <? len).
  - destruct (get_user buffer) as [c|].
    + intros [= _ <-]. exists var.
      destruct (Ascii.eqb c "0"); [now exists false|].
      destruct (Ascii.eqb c "1"); [now exists true|].
      exists (enabled var). split; [reflexivity|].
      now rewrite <- Hid, set_kmem_insert_id.
    + intros [= _ <-]. exists var, (enabled var). now split.
  - intros [= _ <-]. exists var, (enabled var). now split.
Qed.

(** X5.  A write to a node touches nothing but the [enabled] flag of the
    node's own variable: the list, the root pointer, the nodes, every
    other variable, and the refcount and name of this one are as before.
    Hence it keeps the registry invariants and the match between
    refcounts and handles. *)
Theorem condition_proc_write_keeps_registry
    (p : addr) (buffer : user_ptr) (len : Z) (st st' : state) (r : Z) :
  condition_proc_write p buffer len st = Some (r, st') ->
  conditions_list st' = conditions_list st /\
  proc_net_condition st' = proc_net_condition st /\
  procfs st' = procfs st /\
  (forall q, q <> p -> kmem st' !! q = kmem st !! q) /\
  (exists var var',
      kmem st !! p = Some var /\ kmem st' !! p = Some var' /\
      refcount var' = refcount var /\ name var' = name var) /\
  (registry_ok st -> registry_ok st') /\
  (forall hs, refcounts_match (st, hs) -> refcounts_match (st', hs)).
Proof.
  intros Hw. destruct (condition_proc_write_effect _ _ _ _ _ _ Hw)
    as (var & b & Hp & ->).
  cbn [set_kmem conditions_list proc_net_condition procfs kmem].
  split; [reflexivity|]. split; [reflexivity|]. split; [reflexivity|].
  split; [|split; [|split]].
  - intros q Hne. now rewrite lookup_insert_ne.
  - exists var, (set_enabled b var). rewrite lookup_insert_eq. auto.
  - intros Hok. apply (registry_ok_update st p var); auto.
    apply (ok_refcount st Hok p var Hp).
  - intros hs Hrc q. specialize (Hrc q). cbn [fst snd set_kmem kmem] in *.
    destruct (decide (p = q)) as [->|Hne].
    + rewrite lookup_insert_eq. now rewrite Hp in Hrc.
    + now rewrite lookup_insert_ne.
Qed.

Lemma condition_proc_write_keeps_registry_witness :
  registry_ok
    (set_kmem (<[1%positive := set_enabled true (Sample.var_foo 1)]>
                 (kmem (Sample.st_foo 1))) (Sample.st_foo 1)).
Proof.
  destruct (condition_proc_write_keeps_registry 1%positive
              (user_bytes "1") 1 (Sample.st_foo 1)
              (set_kmem (<[1%positive := set_enabled true (Sample.var_foo 1)]>
                           (kmem (Sample.st_foo 1))) (Sample.st_foo 1)) 1)
    as (_ & _ & _ & _ & _ & H & _).
  - reflexivity.
  - apply H. exact registry_ok_st_foo.
Defined.

(** X6.  Write then read: after a write of positive length whose first
    byte is '0' or '1', a read of the node shows that digit and a newline;
    after a write with any other first byte the read shows what it showed
    before. *)
Theorem write_then_show (p : addr) (var : condition_variable) (c : ascii)
    (rest : string) (len : Z) (st : state) :
  kmem st !! p = Some var ->
  0 < len ->
  exists st',
    condition_proc_write p (user_bytes (String c rest)) len st
    = Some (ssize_of_size len, st') /\
    (c = "0"%char \/ c = "1"%char ->
     condition_proc_show p st' = Some (0, String c newline)) /\
    (c <> "0"%char -> c <> "1"%char ->
     condition_proc_show p st' = condition_proc_show p st).
Proof.
  intros Hp Hlen. unfold condition_proc_write. rewrite Hp.
  replace (0 <? len) with true by (symmetry; now apply Z.ltb_lt).
  cbn [get_user]. eexists. split; [reflexivity|].
  unfold condition_proc_show. cbn [set_kmem kmem].
  rewrite lookup_insert_eq, Hp. split.
  - intros [->| ->]; reflexivity.
  - intros H0 H1.
    destruct (Ascii.eqb_spec c "0"); [contradiction|].
    destruct (Ascii.eqb_spec c "1"); [contradiction|reflexivity].
Qed.

Lemma write_then_show_witness :
  exists st',
    condition_proc_write 1%positive (user_bytes (String "1" newline)) 2
      (Sample.st_foo 1) = Some (ssize_of_size 2, st') /\
    condition_proc_show 1%positive st' = Some (0, String "1" newline).
Proof.
  destruct (write_then_show 1%positive (Sample.var_foo 1) "1" newline 2
              (Sample.st_foo 1)) as (st' & Hw & H1 & _).
  - reflexivity.
  - lia.
  - exists st'. split; [exact Hw|]. apply H1. now right.
Defined.

(** X7.  The one failure of a write: with a positive length and a buffer
    whose first byte cannot be read the result is -EFAULT and nothing has
    changed.  With length 0 the buffer is not read at all: even such a
    buffer gives 0, and nothing has changed. *)
Theorem condition_proc_write_unreadable (p : addr) (var : condition_variable)
    (buffer : user_ptr) (len : Z) (st : state) :
  kmem st !! p = Some var ->
  (0 < len -> get_user buffer = None ->
   condition_proc_write p buffer len st = Some (- EFAULT, st)) /\
  (len = 0 -> condition_proc_write p buffer len st = Some (0, st)) /\
  (0 < len -> is_Some (get_user buffer) ->
   exists st',
     condition_proc_write p buffer len st = Some (ssize_of_size len, st')).
Proof.
  intros Hp. unfold condition_proc_write. rewrite Hp. repeat split.
  - intros Hlen Hg.
    replace (0 <? len) with true by (symmetry; now apply Z.ltb_lt).
    now rewrite Hg.
  - intros ->. reflexivity.
  - intros Hlen [c Hg].
    replace (0 <? len) with true by (symmetry; now apply Z.ltb_lt).
    rewrite Hg. eauto.
Qed.

Lemma condition_proc_write_unreadable_witness :
  condition_proc_write 1%positive user_fault 5 (Sample.st_foo 1)
  = Some (- EFAULT, Sample.st_foo 1) /\
  condition_proc_write 1%positive user_fault 0 (Sample.st_foo 1)
  = Some (0, Sample.st_foo 1).
Proof.
  destruct (condition_proc_write_unreadable 1%positive (Sample.var_foo 1)
              user_fault 5 (Sample.st_foo 1)) as (H1 & _ & _);
    [reflexivity|].
  destruct (condition_proc_write_unreadable 1%positive (Sample.var_foo 1)
              user_fault 0 (Sample.st_foo 1)) as (_ & H2 & _);
    [reflexivity|].
  split; [apply H1; [lia|reflexivity]|now apply H2].
Defined.

(** ** Rule changes and the conditions' state *)

Lemma step_keeps_live (o : op) (c c' : config) :
  registry_ok (fst c) -> refcounts_match c -> step o c = Some c' ->
  forall q var,
    kmem (fst c) !! q = Some var ->
    forall var',
      kmem (fst c') !! q = Some var' ->
      enabled var' = enabled var /\ name var' = name var /\
      procfs (fst c') !! (proc_net_condition (fst c), c_str (name var))
      = procfs (fst c) !! (proc_net_condition (fst c), c_str (name var)).
Proof.
  intros Hok Hrc Hstep q var Hq var' Hq'. destruct o as [mp env nm inv|p].
  - unfold step in Hstep.
    destruct (decide (env_fresh env (fst c))) as [Hfresh|]; [|discriminate].
    destruct (check_outcome mp env
                {| info_name := nm; invert := inv; condvar := None |} (fst c)
                Hok Hfresh) as (r & info' & st' & Hchk & Hout).
    rewrite Hchk in Hstep. injection Hstep as <-. cbn [fst] in Hq'.
    destruct Hout as [Hinv|p v Hname Hp E|Hname Habs|p Hname Habs Hp].
    + assert (var' = var) by congruence. now subst.
    + cbn [set_kmem kmem procfs] in *. split; [|split; [|reflexivity]].
      * destruct (decide (p = q)) as [->|Hne].
        -- rewrite lookup_insert_eq in Hq'. injection Hq' as <-.
           assert (v = var) by congruence. now subst.
        -- rewrite lookup_insert_ne in Hq' by exact Hne. congruence.
      * destruct (decide (p = q)) as [->|Hne].
        -- rewrite lookup_insert_eq in Hq'. injection Hq' as <-.
           assert (v = var) by congruence. now subst.
        -- rewrite lookup_insert_ne in Hq' by exact Hne. congruence.
    + assert (var' = var) by congruence. now subst.
    + cbn [kmem procfs] in *.
      assert (Hne : p <> q) by congruence.
      rewrite lookup_insert_ne in Hq' by exact Hne.
      assert (var' = var) by congruence. subst var'.
      split; [reflexivity|]. split; [reflexivity|].
      apply lookup_insert_ne. intros [= E].
      destruct (Habs q var Hq). now apply strcmp_eq_0.
  - destruct (step_detach_cases p c c' Hok Hrc Hstep)
      as (vp & Hp & _ & _ & Hcase).
    destruct Hcase as [[H1 Hst]|[H2 Hst]]; rewrite Hst in *;
      cbn [set_kmem kmem procfs proc_net_condition] in *.
    + apply lookup_delete_Some in Hq' as [Hne Hq'].
      assert (var' = var) by congruence. subst var'.
      split; [reflexivity|]. split; [reflexivity|].
      destruct (ok_root _ Hok) as [dir Hdir]. rewrite Hdir.
      unfold remove_proc_entry. apply lookup_delete_ne. intros [= E].
      apply Hne. apply (ok_names _ Hok p q vp var Hp Hq).
      now apply strcmp_eq_0.
    + destruct (decide (p = q)) as [->|Hne].
      * rewrite lookup_insert_eq in Hq'. injection Hq' as <-.
        assert (vp = var) by congruence. now subst.
      * rewrite lookup_insert_ne in Hq' by exact Hne.
        assert (var' = var) by congruence. now subst.
Qed.

(** X8.  The installation or removal of a rule never changes a condition
    that stays: every variable that is there before and after keeps its
    [enabled] flag and its name, and its node keeps its mode, owner and
    group (changed module parameters apply to new nodes only); and the
    match function gives every rule that is installed before and after the
    same answer. *)
Theorem step_keeps_conditions (o : op) (c c' : config) :
  reachable within_limit c ->
  step o c = Some c' ->
  (forall q var var',
      kmem (fst c) !! q = Some var -> kmem (fst c') !! q = Some var' ->
      enabled var' = enabled var /\ name var' = name var /\
      procfs (fst c') !! (proc_net_condition (fst c), c_str (name var))
      = procfs (fst c) !! (proc_net_condition (fst c), c_str (name var))) /\
  (forall info q,
      condvar info = Some q -> q ∈ snd c -> q ∈ snd c' ->
      is_Some (condition_mt info (fst c)) /\
      condition_mt info (fst c') = condition_mt info (fst c)).
Proof.
  intros Hreach Hstep. destruct (reachable_inv c Hreach) as [Hok Hrc].
  pose proof (step_keeps_live o c c' Hok Hrc Hstep) as Hlive.
  split; [intros q var var' Hq Hq'; now apply (Hlive q var Hq var')|].
  intros info q Hc Hin Hin'.
  pose proof (Hrc q) as Hm. apply holders_pos in Hin as Hpos.
  destruct (kmem (fst c) !! q) as [var|] eqn:Hq; [|lia].
  assert (Hq' : is_Some (kmem (fst c') !! q)).
  { destruct o as [mp env nm inv|p].
    - unfold step in Hstep.
      destruct (decide (env_fresh env (fst c))) as [Hfresh|]; [|discriminate].
      destruct (check_outcome mp env
                  {| info_name := nm; invert := inv; condvar := None |}
                  (fst c) Hok Hfresh) as (r & info' & st' & Hchk & Hout).
      rewrite Hchk in Hstep. injection Hstep as <-. cbn [fst].
      destruct Hout as [Hinv|p v Hname Hp E|Hname Habs|p Hname Habs Hp];
        cbn [set_kmem kmem]; eauto.
      + destruct (decide (p = q)) as [->|Hne].
        * rewrite lookup_insert_eq. eauto.
        * rewrite lookup_insert_ne by exact Hne. eauto.
      + rewrite lookup_insert_ne by congruence. eauto.
    - destruct (step_detach_cases p c c' Hok Hrc Hstep)
        as (vp & Hp & Hhs & Hinp & Hcase).
      destruct Hcase as [[H1 ->]|[H2 ->]]; cbn [set_kmem kmem].
      + rewrite lookup_delete_ne; [eauto|]. intros ->.
        rewrite Hhs in Hin'. apply holders_pos in Hin'.
        rewrite holders_list_del, decide_True in Hin' by auto.
        assert (vp = var) by congruence. subst vp. lia.
      + destruct (decide (p = q)) as [->|Hne].
        * rewrite lookup_insert_eq. eauto.
        * rewrite lookup_insert_ne by exact Hne. eauto. }
  destruct Hq' as [var' Hq'].
  destruct (Hlive q var Hq var' Hq') as (He & _ & _).
  unfold condition_mt. rewrite Hc, Hq, Hq', He. eauto.
Qed.

Lemma step_keeps_conditions_witness :
  condition_mt (set_condvar 1%positive Sample.info_foo)
    (fst (Sample.cfg_foo 2))
  = condition_mt (set_condvar 1%positive Sample.info_foo)
      (fst (Sample.cfg_foo 1)).
Proof.
  destruct (step_keeps_conditions
              (Attach default_params Sample.env_oom "foo" false)
              (Sample.cfg_foo 1) (Sample.cfg_foo 2)) as [_ H].
  - apply step_attach_foo_first. apply within_limit_small.
    unfold UINT_MAX. cbn. lia.
  - apply (step_attach_foo_again 0).
  - apply (H (set_condvar 1%positive Sample.info_foo) 1%positive).
    + reflexivity.
    + cbn. left.
    + cbn. left.
Defined.

(** ** Names and handles *)




(** * Properties of the sysrq target *)

Module SysrqProps.

Import SYSRQ.

(** ** Bounded comparison *)

Lemma memcpy_S (c : ascii) (s : string) (n : nat) :
  memcpy (String c s) (S n) = String c (memcpy s n).
Proof. reflexivity. Qed.

Lemma memcpy_0 (s : string) : memcpy s 0 = EmptyString.
Proof. reflexivity. Qed.

Lemma memcpy_empty (n : nat) : memcpy EmptyString n = EmptyString.
Proof. now destruct n. Qed.

Lemma first_byte_nul (s : string) :
  is_nul (first_byte s) = true <-> c_str s = EmptyString.
Proof.
  destruct s as [|c s]; cbn [first_byte c_str].
  - split; reflexivity.
  - destruct (is_nul c); split; (reflexivity || discriminate).
Qed.

(** With [n] bytes to read the comparison has a result, and the result
    is 0 exactly when the first [n] bytes of both sides hold the same
    text. *)
Lemma strncmp_spec (n : nat) (a b : string) :
  (n <= String.length a)%nat ->
  exists r,
    strncmp a b n = Some r /\
    (r = 0 <-> c_str (memcpy a n) = c_str (memcpy b n)).
Proof.
  revert a b. induction n as [|n IH]; intros a b Hlen.
  - exists 0. rewrite !memcpy_0. now split.
  - destruct a as [|c a]; [cbn in Hlen; lia|].
    cbn [String.length] in Hlen. cbn [strncmp]. rewrite memcpy_S.
    cbn [c_str].
    destruct b as [|d b]; cbn [first_byte rest].
    + rewrite memcpy_empty. cbn [c_str].
      destruct (Ascii.eqb_spec c NUL) as [->|Hc].
      * exists 0. now split.
      * eexists. split; [reflexivity|].
        assert (Hn : is_nul c = false) by (now apply Ascii.eqb_neq).
        rewrite Hn. apply is_nul_uchar in Hn.
        change (uchar NUL) with 0. split; [lia|discriminate].
    + rewrite memcpy_S. cbn [c_str].
      destruct (Ascii.eqb_spec c d) as [<-|Hcd].
      * destruct (is_nul c) eqn:Hn; [exists 0; now split|].
        destruct (IH a b) as (r & Hr & Hiff); [lia|].
        exists r. split; [exact Hr|]. rewrite Hiff.
        split; [congruence|]. now intros [= ->].
      * eexists. split; [reflexivity|]. split.
        -- intros H. exfalso. apply Hcd, uchar_inj. lia.
        -- intros H. exfalso.
           destruct (is_nul c) eqn:Ec, (is_nul d) eqn:Ed; try discriminate.
           ++ apply Ascii.eqb_eq in Ec, Ed. congruence.
           ++ injection H as -> _. congruence.
Qed.

(** Only the first [n] bytes are read. *)
Lemma strncmp_memcpy (n : nat) (a b : string) :
  strncmp a b n = strncmp (memcpy a n) b n.
Proof.
  revert a b. induction n as [|n IH]; intros a b; [reflexivity|].
  destruct a as [|c a]; [reflexivity|].
  rewrite memcpy_S. cbn [strncmp].
  destruct (Ascii.eqb c (first_byte b)); [|reflexivity].
  destruct (is_nul c); [reflexivity|apply IH].
Qed.

(** A text followed by a terminator compares equal to the array holding
    that text, however many bytes are allowed. *)
Lemma strncmp_terminated (k tail b : string) (n : nat) :
  c_str b = k ->
  strncmp (String.append k (String NUL tail)) b n = Some 0.
Proof.
  revert k b. induction n as [|n IH]; intros k b Hb; [reflexivity|].
  destruct k as [|c k]; cbn [String.append strncmp].
  - assert (Hn : is_nul (first_byte b) = true) by (now apply first_byte_nul).
    apply Ascii.eqb_eq in Hn. rewrite Hn. reflexivity.
  - destruct b as [|d b]; cbn [c_str] in Hb; [discriminate|].
    destruct (is_nul d) eqn:Hd; [discriminate|].
    injection Hb as -> Hb. cbn [first_byte rest].
    change (String.append (String c k) (String NUL tail))
      with (String c (String.append k (String NUL tail))).
    cbn beta iota. rewrite Ascii.eqb_refl, Hd. now apply IH.
Qed.

(** A leading part of the text compares equal when only its bytes are
    allowed. *)
Lemma strncmp_leading (k suffix tail b : string) :
  c_str b = String.append k suffix ->
  strncmp (String.append k tail) b (String.length k) = Some 0.
Proof.
  revert b. induction k as [|c k IH]; intros b Hb; [reflexivity|].
  cbn [String.append String.length strncmp].
  destruct b as [|d b]; cbn [c_str String.append] in Hb; [discriminate|].
  destruct (is_nul d) eqn:Hd; [discriminate|].
  injection Hb as -> Hb. cbn [first_byte rest].
  change (String.append (String c k) tail)
    with (String c (String.append k tail)).
  cbn beta iota. rewrite Ascii.eqb_refl, Hd. now apply IH.
Qed.

(** ** sysrq_tg *)

Lemma sysrq_tg_decides (pw data : string) (len : Z) (st : sysrq_state) :
  c_str pw <> EmptyString ->
  0 < len <= Z.of_nat (String.length data) ->
  let same := c_str (memcpy (rest data) (Z.to_nat (len - 1)))
              = c_str (memcpy pw (Z.to_nat (len - 1))) in
  (same /\
   sysrq_tg pw data len st = Some (NF_ACCEPT, accepted (first_byte data) st))
  \/
  (~ same /\ sysrq_tg pw data len st = Some (NF_DROP, rejected st)).
Proof.
  intros Hpw Hlen same. unfold sysrq_tg.
  destruct (is_nul (first_byte pw)) eqn:Hn;
    [apply first_byte_nul in Hn; contradiction|].
  destruct (Z.eqb_spec len 0); [lia|].
  destruct data as [|c data]; [cbn in Hlen; lia|].
  cbn [String.length] in Hlen. cbn [rest first_byte] in *.
  destruct (strncmp_spec (Z.to_nat (len - 1)) data pw) as (r & Hr & Hiff);
    [lia|].
  rewrite Hr. destruct (Z.eqb_spec r 0) as [->|Hne]; cbn [negb].
  - left. split; [now apply Hiff|reflexivity].
  - right. split; [|reflexivity]. intros H. now apply Hne, Hiff.
Qed.

Lemma sysrq_tg_unset (pw data : string) (len : Z) (st : sysrq_state) :
  c_str pw = EmptyString ->
  sysrq_tg pw data len st =
  Some (NF_DROP,
        {| sysrq_once := true;
           klog := if sysrq_once st then klog st
                   else klog st ++ [msg_no_password];
           sysrq_keys := sysrq_keys st |}).
Proof.
  intros Hpw. apply first_byte_nul in Hpw. unfold sysrq_tg. now rewrite Hpw.
Qed.

(** The verdict on a packet whose [len] bytes can be read. *)
Lemma sysrq_tg_verdict (pw data : string) (len : Z) (st : sysrq_state) :
  0 <= len <= Z.of_nat (String.length data) ->
  exists v st',
    sysrq_tg pw data len st = Some (v, st') /\
    (v = NF_ACCEPT <->
     c_str pw <> EmptyString /\ 0 < len /\
     c_str (memcpy (rest data) (Z.to_nat (len - 1)))
     = c_str (memcpy pw (Z.to_nat (len - 1)))) /\
    sysrq_keys st' =
      match v with
      | NF_ACCEPT => sysrq_keys st ++ [first_byte data]
      | NF_DROP => sysrq_keys st
      end.
Proof.
  intros Hlen.
  destruct (string_dec (c_str pw) EmptyString) as [Hpw|Hpw].
  { eexists _, _. split; [now apply sysrq_tg_unset|].
    split; [|reflexivity]. split; [discriminate|]. now intros [H _]. }
  destruct (Z.eq_dec len 0) as [->|Hne].
  { exists NF_DROP, st. split.
    - unfold sysrq_tg.
      destruct (is_nul (first_byte pw)) eqn:Hn;
        [apply first_byte_nul in Hn; contradiction|reflexivity].
    - split; [|reflexivity]. split; [discriminate|]. intros (_ & H & _). lia. }
  destruct (sysrq_tg_decides pw data len st Hpw) as [[Hs Hr]|[Hs Hr]];
    [lia| |]; eexists _, _; (split; [exact Hr|]); (split; [|reflexivity]).
  - split; [intros _|reflexivity]. split; [exact Hpw|]. split; [lia|exact Hs].
  - split; [discriminate|]. now intros (_ & _ & H).
Qed.

(** X10.  Without a password (the first byte of [sysrq_password] is NUL)
    every packet is dropped, whatever it holds and however long it claims
    to be, no key is handed to [handle_sysrq], and over any number of
    packets the notice "No password set" is logged once, by the first
    packet after load. *)
Theorem sysrq_tg_no_password (pw : string) (pkts : list (string * Z))
    (st : sysrq_state) :
  c_str pw = EmptyString ->
  pkts <> [] ->
  sysrq_tg_seq pw pkts st =
  Some (repeat NF_DROP (length pkts),
        {| sysrq_once := true;
           klog := if sysrq_once st then klog st
                   else klog st ++ [msg_no_password];
           sysrq_keys := sysrq_keys st |}).
Proof.
  intros Hpw Hne.
  assert (Hidle : forall ps f,
             sysrq_once f = true ->
             sysrq_tg_seq pw ps f = Some (repeat NF_DROP (length ps), f)).
  { induction ps as [|[d l] ps IH]; intros f Hf; [reflexivity|].
    cbn [sysrq_tg_seq]. rewrite (sysrq_tg_unset pw d l f Hpw), Hf.
    replace {| sysrq_once := true; klog := klog f;
               sysrq_keys := sysrq_keys f |} with f
      by (destruct f; cbn in *; now subst).
    now rewrite (IH f Hf). }
  destruct pkts as [|[d l] ps]; [contradiction|].
  cbn [sysrq_tg_seq]. rewrite (sysrq_tg_unset pw d l st Hpw).
  now rewrite Hidle.
Qed.

Lemma sysrq_tg_no_password_witness :
  sysrq_tg_seq "" [("k"%string, 1); ("kpw"%string, 3)]
    {| sysrq_once := false; klog := []; sysrq_keys := [] |}
  = Some ([NF_DROP; NF_DROP],
          {| sysrq_once := true; klog := [msg_no_password];
             sysrq_keys := [] |}).
Proof.
  apply (sysrq_tg_no_password "" [("k"%string, 1); ("kpw"%string, 3)]
           {| sysrq_once := false; klog := []; sysrq_keys := [] |}).
  - reflexivity.
  - discriminate.
Defined.

(** X11.  With [len] readable bytes [sysrq_tg] always has a verdict, and
    it accepts exactly when a password is set, [len] is positive and the
    [len - 1] bytes after the first hold the same text as the first
    [len - 1] bytes of the password.  The key handed to [handle_sysrq] is
    the first byte, and no key is handed over on a drop. *)
Theorem sysrq_tg_accepts_iff (pw data : string) (len : Z)
    (st : sysrq_state) :
  0 <= len <= Z.of_nat (String.length data) ->
  exists v st',
    sysrq_tg pw data len st = Some (v, st') /\
    (v = NF_ACCEPT <->
     c_str pw <> EmptyString /\ 0 < len /\
     c_str (memcpy (rest data) (Z.to_nat (len - 1)))
     = c_str (memcpy pw (Z.to_nat (len - 1)))) /\
    sysrq_keys st' =
      match v with
      | NF_ACCEPT => sysrq_keys st ++ [first_byte data]
      | NF_DROP => sysrq_keys st
      end.
Proof. apply sysrq_tg_verdict. Qed.

Lemma sysrq_tg_accepts_iff_witness :
  exists v st',
    sysrq_tg "secret" "bsecret" 7
      {| sysrq_once := false; klog := []; sysrq_keys := [] |}
    = Some (v, st') /\
    sysrq_keys st' =
      match v with
      | NF_ACCEPT => [] ++ [first_byte "bsecret"]
      | NF_DROP => []
      end.
Proof.
  destruct (sysrq_tg_accepts_iff "secret" "bsecret" 7
              {| sysrq_once := false; klog := []; sysrq_keys := [] |})
    as (v & st' & H1 & _ & H2).
  - cbn. lia.
  - exists v, st'. split; [exact H1|exact H2].
Defined.

(** X12.  The password is compared over [len - 1] bytes only: when a
    password is set, a packet made of a key byte and any leading part of
    the password, of that length, is accepted and its key handed to
    [handle_sysrq]; in particular a packet of one byte is accepted
    whatever the password. *)
Theorem sysrq_tg_accepts_leading_part (pw k suffix tail : string)
    (c : ascii) (st : sysrq_state) :
  c_str pw = String.append k suffix ->
  c_str pw <> EmptyString ->
  sysrq_tg pw (String c (String.append k tail))
    (1 + Z.of_nat (String.length k)) st
  = Some (NF_ACCEPT, accepted c st) /\
  sysrq_tg pw (String c tail) 1 st = Some (NF_ACCEPT, accepted c st).
Proof.
  intros Hk Hpw.
  assert (Hn : is_nul (first_byte pw) = false).
  { destruct (is_nul (first_byte pw)) eqn:Hn; [|reflexivity].
    apply first_byte_nul in Hn. contradiction. }
  unfold sysrq_tg. rewrite Hn. split.
  - destruct (Z.eqb_spec (1 + Z.of_nat (String.length k)) 0); [lia|].
    replace (Z.to_nat (1 + Z.of_nat (String.length k) - 1))
      with (String.length k) by lia.
    now rewrite (strncmp_leading k suffix tail pw Hk).
  - reflexivity.
Qed.

Lemma sysrq_tg_accepts_leading_part_witness :
  sysrq_tg "secret" "bse" 3
    {| sysrq_once := false; klog := []; sysrq_keys := [] |}
  = Some (NF_ACCEPT,
          accepted "b" {| sysrq_once := false; klog := [];
                          sysrq_keys := [] |}).
Proof.
  apply (sysrq_tg_accepts_leading_part "secret" "se" "cret" "" "b"
           {| sysrq_once := false; klog := []; sysrq_keys := [] |}).
  - reflexivity.
  - discriminate.
Defined.

(** X13.  [sysrq_tg] reads no byte beyond the first [len]: on two
    memories that agree on their first [len] bytes it does the same. *)
Theorem sysrq_tg_reads_len_bytes (pw data : string) (len : Z)
    (st : sysrq_state) :
  0 <= len ->
  sysrq_tg pw data len st = sysrq_tg pw (memcpy data (Z.to_nat len)) len st.
Proof.
  intros Hlen. unfold sysrq_tg.
  destruct (is_nul (first_byte pw)); [reflexivity|].
  destruct (Z.eqb_spec len 0); [reflexivity|].
  replace (Z.to_nat len) with (S (Z.to_nat (len - 1))) by lia.
  destruct data as [|c data]; [reflexivity|].
  rewrite memcpy_S. now rewrite (strncmp_memcpy _ data pw).
Qed.

Lemma sysrq_tg_reads_len_bytes_witness :
  sysrq_tg "secret" "bsecret and more" 7
    {| sysrq_once := false; klog := []; sysrq_keys := [] |}
  = sysrq_tg "secret" (memcpy "bsecret and more" (Z.to_nat 7)) 7
      {| sysrq_once := false; klog := []; sysrq_keys := [] |}.
Proof.
  apply (sysrq_tg_reads_len_bytes "secret" "bsecret and more" 7
           {| sysrq_once := false; klog := []; sysrq_keys := [] |}).
  lia.
Defined.

(** ** sysrq_tg4 and sysrq_tg6 *)

Lemma uchar_range (c : ascii) : 0 <= uchar c < 256.
Proof.
  unfold uchar. pose proof (nat_ascii_bounded c). lia.
Qed.

Lemma be16_range (mem : string) (off : nat) (l : Z) :
  be16 mem off = Some l -> 0 <= l < 65536.
Proof.
  unfold be16. destruct (String.get off mem) as [hi|]; [|discriminate].
  destruct (String.get (S off) mem) as [lo|]; [|discriminate].
  intros [= <-]. pose proof (uchar_range hi). pose proof (uchar_range lo).
  lia.
Qed.

Lemma advance_rest (n : nat) (mem : string) :
  advance n (rest mem) = rest (advance n mem).
Proof.
  revert mem. induction n as [|n IH]; intros mem; [reflexivity|].
  cbn [advance]. apply IH.
Qed.

Lemma length_rest (mem : string) :
  String.length (rest mem) = (String.length mem - 1)%nat.
Proof. destruct mem; cbn; lia. Qed.

Lemma length_advance (n : nat) (mem : string) :
  String.length (advance n mem) = (String.length mem - n)%nat.
Proof.
  revert mem. induction n as [|n IH]; intros mem; cbn [advance].
  - lia.
  - rewrite IH, length_rest. lia.
Qed.

Lemma advance_short (n : nat) (mem : string) :
  (String.length mem <= n)%nat -> advance n mem = EmptyString.
Proof.
  intros H. pose proof (length_advance n mem) as Hl.
  destruct (advance n mem); [reflexivity|]. cbn in Hl. lia.
Qed.

Lemma payload_len_small (l : Z) :
  8 <= l < 65536 -> payload_len l = l - 8.
Proof.
  intros H. unfold payload_len, sizeof_udphdr.
  change (Z.of_nat 8) with 8. apply Z.mod_small. lia.
Qed.

Lemma payload_len_wrap (l : Z) :
  0 <= l < 8 -> payload_len l = l + 65528.
Proof.
  intros H. unfold payload_len, sizeof_udphdr. change (Z.of_nat 8) with 8.
  replace (l - 8) with (l + 65528 + (-1) * 65536) by lia.
  rewrite Z.mod_add by lia. apply Z.mod_small. lia.
Qed.

Lemma sysrq_tg4_eq (pw : string) (saddr : Z) (udp : string)
    (st : sysrq_state) (l sport dport : Z) :
  udph_source udp = Some sport -> udph_dest udp = Some dport ->
  udph_len udp = Some l ->
  sysrq_tg4 pw true saddr udp st =
  sysrq_tg pw (advance sizeof_udphdr udp) (payload_len l)
    {| sysrq_once := sysrq_once st;
       klog := klog st ++ [msg_packet4 saddr sport dport (payload_len l)];
       sysrq_keys := sysrq_keys st |}.
Proof.
  intros Hs Hd Hl. unfold sysrq_tg4. now rewrite Hl, Hs, Hd.
Qed.

(** X14.  [sysrq_tg4] on a datagram whose UDP length field [l] is at
    least 8 and which lies in the buffer: there is a verdict, and it is
    an accept exactly when a password is set, the datagram has payload,
    and the [l - 9] payload bytes after the first hold the same text as
    the first [l - 9] bytes of the password; the key is the first payload
    byte.  When [skb_linearize] fails the packet is dropped and nothing is
    read or logged. *)
Theorem sysrq_tg4_datagram (pw : string) (saddr : Z) (udp : string)
    (st : sysrq_state) (l sport dport : Z) :
  udph_source udp = Some sport -> udph_dest udp = Some dport ->
  udph_len udp = Some l ->
  8 <= l <= Z.of_nat (String.length udp) ->
  (exists v st',
      sysrq_tg4 pw true saddr udp st = Some (v, st') /\
      (v = NF_ACCEPT <->
       c_str pw <> EmptyString /\ 8 < l /\
       c_str (memcpy (advance 9 udp) (Z.to_nat (l - 9)))
       = c_str (memcpy pw (Z.to_nat (l - 9)))) /\
      sysrq_keys st' =
        match v with
        | NF_ACCEPT => sysrq_keys st ++ [first_byte (advance 8 udp)]
        | NF_DROP => sysrq_keys st
        end) /\
  sysrq_tg4 pw false saddr udp st = Some (NF_DROP, st).
Proof.
  intros Hs Hd Hl Hlen. split; [|reflexivity].
  rewrite (sysrq_tg4_eq pw saddr udp st l sport dport Hs Hd Hl).
  pose proof (be16_range _ _ _ Hl) as Hr.
  rewrite payload_len_small by lia.
  match goal with |- context [sysrq_tg _ _ _ ?s] => set (st1 := s) end.
  destruct (sysrq_tg_verdict pw (advance sizeof_udphdr udp) (l - 8) st1)
    as (v & st' & Hv & Hiff & Hkeys).
  { rewrite length_advance. unfold sizeof_udphdr. lia. }
  exists v, st'. split; [exact Hv|]. split; [|exact Hkeys].
  rewrite Hiff. unfold sizeof_udphdr.
  rewrite <- advance_rest. change (advance 8 (rest udp)) with (advance 9 udp).
  replace (l - 8 - 1) with (l - 9) by lia.
  split; intros (H1 & H2 & H3); (split; [exact H1|split; [lia|exact H3]]).
Qed.

Lemma sysrq_tg4_datagram_witness :
  exists v st',
    sysrq_tg4 "secret" true 0 sample_datagram sample_state = Some (v, st') /\
    (v = NF_ACCEPT <->
     c_str "secret" <> EmptyString /\ 8 < 15 /\
     c_str (memcpy (advance 9 sample_datagram) (Z.to_nat (15 - 9)))
     = c_str (memcpy "secret" (Z.to_nat (15 - 9)))).
Proof.
  destruct (sysrq_tg4_datagram "secret" 0 sample_datagram sample_state
              15 1234 9) as [(v & st' & H1 & H2 & _) _].
  - reflexivity.
  - reflexivity.
  - reflexivity.
  - cbn. lia.
  - exists v, st'. split; [exact H1|exact H2].
Defined.

(** X15.  The UDP length field is not checked against the header size: a
    field [l] below 8 makes the length handed to [sysrq_tg] wrap to
    [l + 65528], and a key followed by the password and a terminator
    after the header is accepted although the datagram claims to have no
    payload. *)
Theorem sysrq_tg4_short_length (pw : string) (saddr : Z) (udp : string)
    (st : sysrq_state) (l sport dport : Z) (c : ascii) (tail : string) :
  udph_source udp = Some sport -> udph_dest udp = Some dport ->
  udph_len udp = Some l ->
  l < 8 ->
  c_str pw <> EmptyString ->
  advance 8 udp = String c (String.append (c_str pw) (String NUL tail)) ->
  sysrq_tg4 pw true saddr udp st =
  Some (NF_ACCEPT,
        accepted c
          {| sysrq_once := sysrq_once st;
             klog := klog st ++ [msg_packet4 saddr sport dport (l + 65528)];
             sysrq_keys := sysrq_keys st |}).
Proof.
  intros Hs Hd Hl Hlt Hpw Hmem.
  rewrite (sysrq_tg4_eq pw saddr udp st l sport dport Hs Hd Hl).
  pose proof (be16_range _ _ _ Hl) as Hr.
  rewrite payload_len_wrap by lia.
  unfold sizeof_udphdr. rewrite Hmem. unfold sysrq_tg.
  destruct (is_nul (first_byte pw)) eqn:Hn;
    [apply first_byte_nul in Hn; contradiction|].
  destruct (Z.eqb_spec (l + 65528) 0); [lia|].
  now rewrite (strncmp_terminated (c_str pw) tail pw _ eq_refl).
Qed.

Lemma sysrq_tg4_short_length_witness :
  sysrq_tg4 "secret" true 0 sample_short_length sample_state =
  Some (NF_ACCEPT,
        accepted "b"
          {| sysrq_once := false;
             klog := [] ++ [msg_packet4 0 1234 9 (0 + 65528)];
             sysrq_keys := [] |}).
Proof.
  apply (sysrq_tg4_short_length "secret" 0 sample_short_length sample_state
           0 1234 9 "b" "").
  - reflexivity.
  - reflexivity.
  - reflexivity.
  - lia.
  - discriminate.
  - reflexivity.
Defined.

Lemma sysrq_tg6_eq (pw : string) (saddr : Z) (udp : string)
    (st : sysrq_state) (l sport dport : Z) :
  udph_source udp = Some sport -> udph_dest udp = Some dport ->
  udph_len udp = Some l ->
  sysrq_tg6 pw true saddr udp st =
  sysrq_tg pw (advance 64 udp) (payload_len l)
    {| sysrq_once := sysrq_once st;
       klog := klog st ++ [msg_packet6 saddr sport dport (payload_len l)];
       sysrq_keys := sysrq_keys st |}.
Proof.
  intros Hs Hd Hl. unfold sysrq_tg6. now rewrite Hl, Hs, Hd.
Qed.

(** X16.  [sysrq_tg6] takes the key and the password 64 bytes after the
    start of the UDP header, not 8: with a password set and a datagram
    that has payload, it reads outside the buffer when the buffer holds
    no more than 64 bytes from the UDP header on; and whenever it accepts,
    the key it hands to [handle_sysrq] is the byte at offset 64. *)
Theorem sysrq_tg6_reads_at_64 (pw : string) (saddr : Z) (udp : string)
    (st : sysrq_state) (l sport dport : Z) :
  udph_source udp = Some sport -> udph_dest udp = Some dport ->
  udph_len udp = Some l ->
  c_str pw <> EmptyString ->
  payload_len l <> 0 ->
  ((String.length udp <= 64)%nat ->
   sysrq_tg6 pw true saddr udp st = None) /\
  (forall st',
      sysrq_tg6 pw true saddr udp st = Some (NF_ACCEPT, st') ->
      sysrq_keys st' = sysrq_keys st ++ [first_byte (advance 64 udp)]).
Proof.
  intros Hs Hd Hl Hpw Hlen.
  rewrite (sysrq_tg6_eq pw saddr udp st l sport dport Hs Hd Hl).
  unfold sysrq_tg.
  destruct (is_nul (first_byte pw)) eqn:Hn;
    [apply first_byte_nul in Hn; contradiction|].
  destruct (Z.eqb_spec (payload_len l) 0); [contradiction|]. split.
  - intros Hshort. now rewrite (advance_short 64 udp Hshort).
  - intros st'. destruct (advance 64 udp) as [|c d]; [discriminate|].
    destruct (strncmp d pw _) as [r|]; [|discriminate].
    destruct (negb (r =? 0)); [discriminate|]. now intros [= <-].
Qed.

Lemma sysrq_tg6_reads_at_64_witness :
  sysrq_tg6 "secret" true 0 sample_datagram sample_state = None /\
  (exists v st',
      sysrq_tg4 "secret" true 0 sample_datagram sample_state
      = Some (v, st')).
Proof.
  split.
  - apply (sysrq_tg6_reads_at_64 "secret" 0 sample_datagram sample_state
             15 1234 9).
    + reflexivity.
    + reflexivity.
    + reflexivity.
    + discriminate.
    + discriminate.
    + cbn. lia.
  - eexists _, _. reflexivity.
Defined.

(** ** sysrq_tg_check *)

Lemma land_bit6 (x : Z) :
  Z.land x XT_INV_PROTO = 0 <-> Z.testbit x 6 = false.
Proof.
  unfold XT_INV_PROTO. change 64 with (2 ^ 6). split.
  - intros H.
    assert (Hb : Z.testbit (Z.land x (2 ^ 6)) 6 = false)
      by (rewrite H; apply Z.bits_0).
    rewrite Z.land_spec, Z.pow2_bits_true, andb_true_r in Hb by lia.
    exact Hb.
  - intros H. apply Z.bits_inj'. intros n Hn.
    rewrite Z.land_spec, Z.bits_0.
    destruct (Z.eq_dec n 6) as [->|Hne].
    + now rewrite H.
    + rewrite (Z.pow2_bits_false 6 n) by lia. apply andb_false_r.
Qed.

(** X17.  For an IPv4 or IPv6 rule [sysrq_tg_check] accepts exactly the
    entries whose protocol is UDP or UDP-Lite and whose inverted-protocol
    flag (bit 6 of [invflags]) is clear; in particular an entry for any
    protocol (0) is refused.  For any other family it accepts without
    looking at the entry. *)
Theorem sysrq_tg_check_iff (family proto invflags : Z) :
  (family = NFPROTO_IPV4 \/ family = NFPROTO_IPV6 ->
   (sysrq_tg_check family proto invflags = true <->
    (proto = IPPROTO_UDP \/ proto = IPPROTO_UDPLITE) /\
    Z.testbit invflags 6 = false) /\
   sysrq_tg_check family 0 invflags = false) /\
  (family <> NFPROTO_IPV4 -> family <> NFPROTO_IPV6 ->
   sysrq_tg_check family proto invflags = true).
Proof.
  assert (Hcore : forall pr,
             ((if (negb (pr =? IPPROTO_UDP) && negb (pr =? IPPROTO_UDPLITE))
                  || negb (Z.land invflags XT_INV_PROTO =? 0)
               then false else true) = true <->
              (pr = IPPROTO_UDP \/ pr = IPPROTO_UDPLITE) /\
              Z.testbit invflags 6 = false)).
  { intros pr. rewrite <- land_bit6.
    destruct (Z.eqb_spec pr IPPROTO_UDP), (Z.eqb_spec pr IPPROTO_UDPLITE),
      (Z.eqb_spec (Z.land invflags XT_INV_PROTO) 0); cbn;
      split; try tauto; try discriminate; intros [[?|?] ?]; congruence. }
  split.
  - intros Hf. unfold sysrq_tg_check.
    destruct Hf as [-> | ->]; cbn [Z.eqb NFPROTO_IPV4 NFPROTO_IPV6 Pos.eqb];
      (split; [apply Hcore|reflexivity]).
  - intros H4 H6. unfold sysrq_tg_check.
    destruct (Z.eqb_spec family NFPROTO_IPV4); [contradiction|].
    destruct (Z.eqb_spec family NFPROTO_IPV6); [contradiction|reflexivity].
Qed.

Lemma sysrq_tg_check_iff_witness :
  (sysrq_tg_check NFPROTO_IPV4 IPPROTO_UDP 0 = true <->
   (IPPROTO_UDP = IPPROTO_UDP \/ IPPROTO_UDP = IPPROTO_UDPLITE) /\
   Z.testbit 0 6 = false) /\
  sysrq_tg_check NFPROTO_IPV4 0 0 = false.
Proof.
  apply (sysrq_tg_check_iff NFPROTO_IPV4 IPPROTO_UDP 0). now left.
Defined.

End SysrqProps.
